(** * snpy: the prompt engine of the class [Snpy], embedded and verified

    The development follows the TypeScript class [Snpy]: the windowed list
    renderer ([getVisibleRange]), the key handlers of the five prompt kinds
    ([handleSelectable], [handleCheckbox], [handleInput], [handleConfirm],
    [handleDirectory]) and the two file helpers ([makeFolder],
    [makeTemplate]).

    Conventions of the embedding
    - a JavaScript number that holds an index is a [Z] (the cursor of an
      empty list becomes [-1] after the up key);
    - a JavaScript string is a [string], its code units being the
      characters of [ascii]; [s || d] on strings is [js_or];
    - an array read [a[i]] is [js_index], [None] standing for [undefined];
    - a promise that is resolved from a key handler is a step function
      [state -> KeyPress -> Step state result]; the handler is removed when
      the promise resolves, so [run_keys] stops at the first [Resolve];
    - Node's [fs] is a capability class [FileSystem]; a call that may throw
      returns an [outcome]. *)

From Stdlib Require Import ZArith String Ascii List Bool Lia.
From Stdlib Require Import DecimalString DecimalZ DecimalPos Sorted.
From stdpp Require Import base option list sorting strings gmap.

Import ListNotations.
Local Open Scope string_scope.
Local Open Scope Z_scope.

(** ** JavaScript values *)

Module JS.

(** [s || d] for two strings: the empty string is the only falsy one. *)
Definition js_or (s d : string) : string :=
  if String.eqb s EmptyString then d else s.

(** [a[i]] for a number [i] that holds an integer: [undefined] outside of
    [0 .. a.length - 1], negative indices included. *)
Definition js_index {A : Type} (a : list A) (i : Z) : option A :=
  if i <? 0 then None else a !! Z.to_nat i.

(** [a[i] || ''] on an array of strings. *)
Definition js_index_or_empty (a : list string) (i : Z) : string :=
  match js_index a i with
  | Some s => js_or s EmptyString
  | None => EmptyString
  end.

(** [a.length] as a number. *)
Definition js_length {A : Type} (a : list A) : Z := Z.of_nat (List.length a).

(** [a.slice(start, end)] for [0 <= start], [0 <= end]. *)
Definition js_slice {A : Type} (a : list A) (start end_ : Z) : list A :=
  take (Z.to_nat end_ - Z.to_nat start)%nat (drop (Z.to_nat start) a).

End JS.
Export JS.

(** ** Windowed list renderer *)

Definition MAX_VISIBLE_ITEMS : Z := 10.

Record VisibleRange : Type := mkRange {
  start : Z;
  end_ : Z;
  showTop : bool;
  showBottom : bool
}.

(** [getVisibleRange(items, currentIndex, maxVisible = MAX_VISIBLE_ITEMS)].
    [Math.floor(maxVisible / 2)] is [Z.div], which rounds down. *)
Definition getVisibleRange {A : Type} (items : list A) (currentIndex : Z)
    (maxVisible : Z) : VisibleRange :=
  let half := maxVisible / 2 in
  let start0 := Z.max 0 (currentIndex - half) in
  let end0 := Z.min (js_length items) (start0 + maxVisible) in
  let start1 :=
    if end0 =? js_length items then Z.max 0 (end0 - maxVisible) else start0 in
  let end1 :=
    if start1 =? 0 then Z.min (js_length items) maxVisible else end0 in
  {| start := start1;
     end_ := end1;
     showTop := 0 <? start1;
     showBottom := end1 <? js_length items |}.

(** The call with the default third argument. *)
Definition getVisibleRange_default {A : Type} (items : list A)
    (currentIndex : Z) : VisibleRange :=
  getVisibleRange items currentIndex MAX_VISIBLE_ITEMS.

(** The slice that [render] draws. *)
Definition visibleChoices {A : Type} (items : list A) (currentIndex : Z)
    : list A :=
  let r := getVisibleRange_default items currentIndex in
  js_slice items (start r) (end_ r).

(** ** Key events and prompt handlers *)

(** The two arguments [(str, key)] of a keypress listener: [str] is
    [undefined] for escape sequences, [key.name] is [undefined] for characters
    that have no name. *)
Record KeyPress : Type := mkKeyPress {
  str : option string;
  key_name : option string;
  key_ctrl : bool;
  key_meta : bool
}.

(** [key.name === n]. *)
Definition key_is (ev : KeyPress) (n : string) : bool :=
  match key_name ev with
  | Some m => String.eqb m n
  | None => false
  end.

(** Truthiness of [str]: defined and not empty. *)
Definition str_truthy (ev : KeyPress) : bool :=
  match str ev with
  | Some s => negb (String.eqb s EmptyString)
  | None => false
  end.

Definition str_value (ev : KeyPress) : string := default EmptyString (str ev).

Definition named (n : string) : KeyPress :=
  {| str := None; key_name := Some n; key_ctrl := false; key_meta := false |}.
Definition typed (c : string) (n : string) : KeyPress :=
  {| str := Some c; key_name := Some n; key_ctrl := false; key_meta := false |}.

Definition KeyUp : KeyPress := named "up".
Definition KeyDown : KeyPress := named "down".
Definition KeyReturn : KeyPress := typed (String (ascii_of_nat 13) EmptyString) "return".
Definition KeyBackspace : KeyPress := typed (String (ascii_of_nat 127) EmptyString) "backspace".
Definition KeySpace : KeyPress := typed " " "space".

(** What one call of a key handler does to a pending promise. *)
Inductive Step (S R : Type) : Type :=
| Continue (s : S)
| Resolve (r : R).
Arguments Continue {S R} s.
Arguments Resolve {S R} r.

(** The state of a prompt after a sequence of key events. [Exited] is
    [process.exit()], which [IO.onKeyPress] calls on ctrl-c before the handler
    of the prompt sees the key. *)
Inductive Run (S R : Type) : Type :=
| Pending (s : S)
| Resolved (r : R)
| Exited.
Arguments Pending {S R} s.
Arguments Resolved {S R} r.
Arguments Exited {S R}.

Section Runner.
Context {S R : Type} (handler : S -> KeyPress -> Step S R).

(** [IO.onKeyPress(handler)] fed with the events [evs]; the handler is
    removed when it resolves, the remaining events reach nobody. *)
Fixpoint run_keys (s : S) (evs : list KeyPress) : Run S R :=
  match evs with
  | [] => Pending s
  | ev :: evs' =>
      if key_ctrl ev && key_is ev "c" then Exited
      else match handler s ev with
           | Continue s' => run_keys s' evs'
           | Resolve r => Resolved r
           end
  end.

End Runner.

(** [option.choices || []]: an array is truthy, the empty one too. *)
Definition choices_or_empty (choices : option (list string)) : list string :=
  match choices with
  | Some l => l
  | None => []
  end.

(** *** [handleSelectable] (list and nlist) *)

(** The state is [currentIndex]; [selectedValue] is written once, in the
    branch that resolves. *)
Definition handleSelectable_key (choices : list string) (currentIndex : Z)
    (ev : KeyPress) : Step Z string :=
  if key_is ev "up" then
    Continue (if 0 <? currentIndex then currentIndex - 1
              else js_length choices - 1)
  else if key_is ev "down" then
    Continue (if currentIndex <? js_length choices - 1 then currentIndex + 1
              else 0)
  else if key_is ev "return" then
    Resolve (js_index_or_empty choices currentIndex)
  else Continue currentIndex.

Definition handleSelectable (choices : option (list string))
    (evs : list KeyPress) : Run Z string :=
  run_keys (handleSelectable_key (choices_or_empty choices)) 0 evs.

(** *** [Set<number>] and [Array.prototype.sort()] *)

Module JSSet.

(** A JavaScript [Set] of numbers: its elements in insertion order, each
    once. [Array.from] reads them in this order. *)
Definition t : Type := list Z.

Definition empty : t := [].

Definition has (s : t) (x : Z) : bool := existsb (Z.eqb x) s.

Definition add (s : t) (x : Z) : t := if has s x then s else (s ++ [x])%list.

Definition delete (s : t) (x : Z) : t :=
  List.filter (fun y => negb (Z.eqb y x)) s.

Definition to_array (s : t) : list Z := s.

End JSSet.

(** [Number.prototype.toString()] on an integer: decimal digits, a minus
    sign for negative numbers. *)
Definition js_toString (z : Z) : string := NilZero.string_of_int (Z.to_int z).

(** The default comparison of [sort()]: the elements are converted to
    strings and compared code unit by code unit. *)
Definition js_sort_le (x y : Z) : bool :=
  String.leb (js_toString x) (js_toString y).

Section InsertionSort.
Context {A : Type} (le : A -> A -> bool).

Fixpoint insert_by (x : A) (l : list A) : list A :=
  match l with
  | [] => [x]
  | y :: l' => if le x y then x :: y :: l' else y :: insert_by x l'
  end.

(** A stable sort by the comparison [le]. *)
Fixpoint sort_by (a : list A) : list A :=
  match a with
  | [] => []
  | x :: a' => insert_by x (sort_by a')
  end.

(** The relation that the comparison decides. *)
Definition le_rel (x y : A) : Prop := le x y = true.

End InsertionSort.

(** [a.sort()] with no comparison function. The sort of the language is
    stable; so is this insertion sort, and the order being total on the
    strings of distinct numbers, every sort returns the same array. *)
Definition js_sort (a : list Z) : list Z := sort_by js_sort_le a.

(** *** [handleCheckbox] *)

Record CheckboxState : Type := mkCheckbox {
  cb_currentIndex : Z;
  cb_selectedItems : JSSet.t
}.

Definition handleCheckbox_key (choices : list string) (st : CheckboxState)
    (ev : KeyPress) : Step CheckboxState (list string) :=
  let currentIndex := cb_currentIndex st in
  let selectedItems := cb_selectedItems st in
  if key_is ev "up" then
    Continue (mkCheckbox (if 0 <? currentIndex then currentIndex - 1
                          else js_length choices - 1) selectedItems)
  else if key_is ev "down" then
    Continue (mkCheckbox (if currentIndex <? js_length choices - 1
                          then currentIndex + 1 else 0) selectedItems)
  else if key_is ev "space" then
    Continue (mkCheckbox currentIndex
                (if JSSet.has selectedItems currentIndex
                 then JSSet.delete selectedItems currentIndex
                 else JSSet.add selectedItems currentIndex))
  else if key_is ev "return" then
    Resolve (map (fun index => js_index_or_empty choices index)
                 (js_sort (JSSet.to_array selectedItems)))
  else Continue st.

Definition handleCheckbox (choices : option (list string))
    (evs : list KeyPress) : Run CheckboxState (list string) :=
  run_keys (handleCheckbox_key (choices_or_empty choices))
           (mkCheckbox 0 JSSet.empty) evs.

(** *** [handleInput] *)

Record InputState : Type := mkInput {
  input : string;
  hasInput : bool
}.

(** [input.slice(0, -1)]. *)
Definition js_drop_last (s : string) : string :=
  String.substring 0 (String.length s - 1) s.

(** [resetLine]: the line is redrawn; [hasInput] falls back to [false] when
    the buffer is empty. *)
Definition resetLine (st : InputState) : InputState :=
  if (0 <? String.length (input st))%nat then st
  else mkInput (input st) false.

(** [option.default?.toString() || '']. *)
Definition input_defaultValue (default_ : option string) : string :=
  match default_ with
  | Some d => js_or d EmptyString
  | None => EmptyString
  end.

Definition handleInput_key (defaultValue : string) (st : InputState)
    (ev : KeyPress) : Step InputState string :=
  if key_is ev "return" then
    Resolve (js_or (input st) defaultValue)
  else if key_is ev "backspace" then
    Continue (resetLine
      (if (0 <? String.length (input st))%nat
       then mkInput (js_drop_last (input st)) (hasInput st)
       else st))
  else if str_truthy ev && negb (key_ctrl ev) && negb (key_meta ev) then
    Continue (resetLine (mkInput (String.append (input st) (str_value ev)) true))
  else Continue st.

Definition handleInput (default_ : option string) (evs : list KeyPress)
    : Run InputState string :=
  run_keys (handleInput_key (input_defaultValue default_))
           (mkInput EmptyString false) evs.

(** *** [handleConfirm] *)

Definition ascii_toLowerCase (c : ascii) : ascii :=
  let n := nat_of_ascii c in
  if ((65 <=? n) && (n <=? 90))%nat then ascii_of_nat (n + 32) else c.

(** [String.prototype.toLowerCase()] on the characters of [ascii]. *)
Fixpoint js_toLowerCase (s : string) : string :=
  match s with
  | EmptyString => EmptyString
  | String c s' => String (ascii_toLowerCase c) (js_toLowerCase s')
  end.

(** [option.default === undefined ? 'Y' : option.default ? 'Y' : 'N']. *)
Definition confirm_defaultValue (default_ : option bool) : string :=
  match default_ with
  | None => "Y"
  | Some d => if d then "Y" else "N"
  end.

(** The hint [Y/n] or [y/N] of the prompt line. *)
Definition confirm_choices (defaultValue : string) : string :=
  if String.eqb defaultValue "Y" then "Y/n" else "y/N".

Definition handleConfirm_key (defaultValue : string) (st : InputState)
    (ev : KeyPress) : Step InputState bool :=
  if key_is ev "return" then
    Resolve (String.eqb (js_toLowerCase (js_or (input st) defaultValue)) "y")
  else if key_is ev "backspace" then
    Continue (resetLine
      (if (0 <? String.length (input st))%nat
       then mkInput (js_drop_last (input st)) (hasInput st)
       else st))
  else if str_truthy ev && negb (key_ctrl ev) && negb (key_meta ev) then
    let char := js_toLowerCase (str_value ev) in
    if String.eqb char "y" || String.eqb char "n" then
      Continue (resetLine (mkInput char true))
    else Continue st
  else Continue st.

Definition handleConfirm (default_ : option bool) (evs : list KeyPress)
    : Run InputState bool :=
  run_keys (handleConfirm_key (confirm_defaultValue default_))
           (mkInput EmptyString false) evs.


(** ** Node's [path] module (POSIX flavour)

    [path.join] and [path.dirname] belong to the runtime, not to the
    repository. They are modelled after Node's [lib/path.js]: [normalize]
    works segment by segment, which is what [normalizeString] computes with
    its character loop; [dirname] follows the backward scan of the
    original. *)

Module Path.

Definition slash : ascii := "/"%char.

Definition starts_with_slash (p : string) : bool :=
  match p with
  | String c _ => Ascii.eqb c slash
  | EmptyString => false
  end.

Fixpoint ends_with_slash (p : string) : bool :=
  match p with
  | EmptyString => false
  | String c EmptyString => Ascii.eqb c slash
  | String _ p' => ends_with_slash p'
  end.

(** The pieces between the separators, empty ones included. *)
Fixpoint segments (p : string) : list string :=
  match p with
  | EmptyString => [EmptyString]
  | String c p' =>
      if Ascii.eqb c slash then EmptyString :: segments p'
      else match segments p' with
           | seg :: rest => String c seg :: rest
           | [] => [String c EmptyString]
           end
  end.

(** One separator met by [normalizeString]; [res] is the result so far, last
    segment first. *)
Definition push_segment (allowAboveRoot : bool) (res : list string)
    (seg : string) : list string :=
  if String.eqb seg EmptyString || String.eqb seg "." then res
  else if String.eqb seg ".." then
    match res with
    | top :: rest =>
        if String.eqb top ".." then
          (if allowAboveRoot then ".." :: res else res)
        else rest
    | [] => if allowAboveRoot then [".."] else []
    end
  else seg :: res.

Definition normalizeString (p : string) (allowAboveRoot : bool) : string :=
  String.concat "/" (rev (fold_left (push_segment allowAboveRoot) (segments p) [])).

Definition normalize (p : string) : string :=
  if String.eqb p EmptyString then "."
  else
    let isAbsolute := starts_with_slash p in
    let trailingSeparator := ends_with_slash p in
    let q := normalizeString p (negb isAbsolute) in
    if String.eqb q EmptyString then
      (if isAbsolute then "/" else if trailingSeparator then "./" else ".")
    else
      let q' := if trailingSeparator then String.append q "/" else q in
      if isAbsolute then String.append "/" q' else q'.

(** [path.join(a, b)]: the non-empty arguments, glued with a separator and
    normalised. *)
Definition join (a b : string) : string :=
  if String.eqb a EmptyString then
    (if String.eqb b EmptyString then "." else normalize b)
  else if String.eqb b EmptyString then normalize a
  else normalize (String.append a (String "/" b)).

(** The loop of [dirname]: [i] runs from [path.length - 1] down to [1]. *)
Fixpoint dirname_scan (p : string) (i : nat) (matchedSlash : bool)
    : option nat :=
  match i with
  | O => None
  | S i' =>
      match String.get i p with
      | Some c =>
          if Ascii.eqb c slash then
            (if matchedSlash then dirname_scan p i' matchedSlash else Some i)
          else dirname_scan p i' false
      | None => dirname_scan p i' false
      end
  end.

Definition dirname (p : string) : string :=
  if String.eqb p EmptyString then "."
  else
    let hasRoot := starts_with_slash p in
    match dirname_scan p (String.length p - 1) true with
    | None => if hasRoot then "/" else "."
    | Some e =>
        if hasRoot && Nat.eqb e 1 then "//" else String.substring 0 e p
    end.

(** The last segment; used by the in-memory file system only. *)
Definition basename (p : string) : string :=
  List.last (segments p) EmptyString.

End Path.

(** ** Exceptions, the file system and the session's world *)

Inductive Exn : Type :=
| ErrnoException (code : string)
| TypeError (message : string).

(** The result of a call that may throw. *)
Inductive outcome (A : Type) : Type :=
| Returned (a : A)
| Thrown (e : Exn).
Arguments Returned {A} a.
Arguments Thrown {A} e.

(** [fs.Dirent], as far as the program reads it. *)
Record Dirent : Type := mkDirent {
  dirent_name : string;
  isDirectory : bool
}.

(** The four calls of Node's [fs] that the program makes. [existsSync] never
    throws; [readdirSync] reads only; [mkdirSync] and [writeFileSync] return
    the file system they leave behind, also when they throw. *)
Class FileSystem (FS : Type) : Type := {
  existsSync : FS -> string -> bool;
  readdirSync : FS -> string -> outcome (list Dirent);
  mkdirSync : FS -> string -> FS * outcome unit;
  writeFileSync : FS -> string -> string -> FS * outcome unit
}.

(** What the session acts on: the file system and the lines written through
    [logError]. Other terminal output is not kept: no handler reads the
    screen. *)
Record World (FS : Type) : Type := mkWorld {
  fs : FS;
  errors : list string
}.
Arguments mkWorld {FS} fs errors.
Arguments fs {FS} w.
Arguments errors {FS} w.

(** Code that may change the world and may throw. *)
Definition IO (FS A : Type) : Type := World FS -> World FS * outcome A.

Definition ret {FS A : Type} (a : A) : IO FS A := fun w => (w, Returned a).

Definition throw {FS A : Type} (e : Exn) : IO FS A := fun w => (w, Thrown e).

Definition bind {FS A B : Type} (c : IO FS A) (k : A -> IO FS B) : IO FS B :=
  fun w =>
    match c w with
    | (w', Returned a) => k a w'
    | (w', Thrown e) => (w', Thrown e)
    end.

(** [try { c } catch (error) { h }]. *)
Definition try_catch {FS A : Type} (c : IO FS A) (h : Exn -> IO FS A)
    : IO FS A :=
  fun w =>
    match c w with
    | (w', Returned a) => (w', Returned a)
    | (w', Thrown e) => h e w'
    end.

Declare Scope io_scope.
Delimit Scope io_scope with io.
Notation "'let*' x ':=' c 'in' k" := (bind c (fun x => k))
  (at level 10, x name, c at level 100, k at level 200) : io_scope.
Local Open Scope io_scope.

Section Session.
Context {FS : Type} `{FileSystem FS}.

(** [logError(message)]: the message and a new line, in red. *)
Definition logError (message : string) : IO FS unit :=
  fun w => (mkWorld (fs w) (errors w ++ [message])%list, Returned tt).

Definition io_existsSync (p : string) : IO FS bool :=
  fun w => (w, Returned (existsSync (fs w) p)).

Definition io_readdirSync (p : string) : IO FS (list Dirent) :=
  fun w => (w, readdirSync (fs w) p).

Definition io_mkdirSync (p : string) : IO FS unit :=
  fun w => let '(fs', r) := mkdirSync (fs w) p in (mkWorld fs' (errors w), r).

Definition io_writeFileSync (p data : string) : IO FS unit :=
  fun w =>
    let '(fs', r) := writeFileSync (fs w) p data in (mkWorld fs' (errors w), r).

(** [getDirectories(source)]. *)
Definition getDirectories (source : string) : IO FS (list string) :=
  let* dirents := io_readdirSync source in
  ret (map dirent_name (List.filter isDirectory dirents)).

(** *** The file helpers of the session *)

(** The return value of [makeFolder]: [false] or the new path. *)
Inductive MakeFolderResult : Type :=
| MFFalse
| MFPath (newPath : string).

Definition makeFolder (currentPath folderName : string)
    : IO FS MakeFolderResult :=
  let newPath := Path.join currentPath folderName in
  let* exists_ := io_existsSync newPath in
  if exists_ then
    let* _ := logError "[Snpy-Error] Folder already exists!" in
    ret MFFalse
  else
    let* _ := io_mkdirSync newPath in
    ret (MFPath newPath).

Definition makeTemplate (dir file_name code : string) : IO FS unit :=
  let filePath := Path.join dir file_name in
  let* exists_ := io_existsSync filePath in
  if exists_ then
    let* _ := logError (String.append "[Snpy-Error] File already exists: " filePath) in
    ret tt
  else
    try_catch
      (io_writeFileSync filePath code)
      (fun _ =>
         logError (String.append "[Snpy-Error] Failed to write file: " filePath)).

(** *** [handleDirectory] *)

Definition SELECT_THIS_PATH : string := "[ SELECT THIS PATH ]".
Definition SELECT_BACK_PATH : string := "..".

(** [option.basePath || '.']. *)
Definition basePath_or_dot (basePath : option string) : string :=
  match basePath with
  | Some p => js_or p "."
  | None => "."
  end.

(** Which listener is installed: the browser's [keyPressHandler], or the
    handler of the nested [handleInput] that [createNewFolder] awaits. *)
Inductive DirectoryMode : Type :=
| Browsing
| Naming (folderName : InputState).

Record DirectoryState : Type := mkDirectory {
  currentPath : string;
  currentIndex : Z;
  mode : DirectoryMode
}.

Section Directory.
Variable basePath : option string.

Definition getChoices (currentPath_ : string) : IO FS (list string) :=
  let* dirs := getDirectories currentPath_ in
  let choices := [SELECT_THIS_PATH] in
  let choices :=
    if negb (String.eqb currentPath_ (basePath_or_dot basePath))
    then (choices ++ [SELECT_BACK_PATH])%list else choices in
  ret (choices ++ dirs)%list.

(** [render]: the listing is read again; what is drawn is the window of
    [getVisibleRange] over it. *)
Definition render (currentPath_ : string) (currentIndex_ : Z) : IO FS unit :=
  let* choices := getChoices currentPath_ in
  let _ := visibleChoices choices currentIndex_ in
  ret tt.

(** The part of [createNewFolder] that runs once the nested prompt has
    resolved with [folderName]; the result is the new [currentPath] and the
    boolean the function returns. The pause of 1.5 s is not modelled. *)
Definition createNewFolder_named (currentPath_ folderName : string)
    : IO FS (string * bool) :=
  if String.eqb folderName EmptyString then ret (currentPath_, false)
  else
    try_catch
      (let newPath := Path.join currentPath_ folderName in
       let* exists_ := io_existsSync newPath in
       if exists_ then
         let* _ := logError (String (ascii_of_nat 10)
                     (String.append "Folder already exists!"
                        (String (ascii_of_nat 10) EmptyString))) in
         ret (currentPath_, false)
       else
         let* _ := io_mkdirSync newPath in
         ret (newPath, true))
      (fun _ =>
         let* _ := logError (String (ascii_of_nat 10)
                     (String.append "Failed to create folder!"
                        (String (ascii_of_nat 10) EmptyString))) in
         ret (currentPath_, false)).

(** [keyPressHandler] of the browser. *)
Definition keyPressHandler (st : DirectoryState) (ev : KeyPress)
    : IO FS (Step DirectoryState string) :=
  let* choices := getChoices (currentPath st) in
  if key_is ev "up" then
    let i := if 0 <? currentIndex st then currentIndex st - 1
             else js_length choices - 1 in
    let* _ := render (currentPath st) i in
    ret (Continue (mkDirectory (currentPath st) i Browsing))
  else if key_is ev "down" then
    let i := if currentIndex st <? js_length choices - 1
             then currentIndex st + 1 else 0 in
    let* _ := render (currentPath st) i in
    ret (Continue (mkDirectory (currentPath st) i Browsing))
  else if key_is ev "space" then
    ret (Continue (mkDirectory (currentPath st) (currentIndex st)
                     (Naming (mkInput EmptyString false))))
  else if key_is ev "return" then
    match js_index choices (currentIndex st) with
    | Some selected =>
        if String.eqb selected SELECT_THIS_PATH then
          ret (Resolve (currentPath st))
        else if String.eqb selected SELECT_BACK_PATH then
          let p := Path.dirname (currentPath st) in
          let* _ := render p 0 in
          ret (Continue (mkDirectory p 0 Browsing))
        else
          let p := Path.join (currentPath st) selected in
          let* _ := render p 0 in
          ret (Continue (mkDirectory p 0 Browsing))
    | None =>
        (* [path.join(currentPath, undefined)] *)
        throw (TypeError "The path argument must be of type string")
    end
  else if key_is ev "backspace" then
    if negb (String.eqb (currentPath st) (basePath_or_dot basePath)) then
      let p := Path.dirname (currentPath st) in
      let* _ := render p 0 in
      ret (Continue (mkDirectory p 0 Browsing))
    else ret (Continue st)
  else ret (Continue st).

(** A key while the nested prompt is open: it goes to the handler of
    [handleInput] (no default value); when that resolves, the rest of
    [createNewFolder] and its [then] callback run. *)
Definition namingHandler (st : DirectoryState) (folderName : InputState)
    (ev : KeyPress) : IO FS (Step DirectoryState string) :=
  match handleInput_key (input_defaultValue None) folderName ev with
  | Continue folderName' =>
      ret (Continue (mkDirectory (currentPath st) (currentIndex st)
                       (Naming folderName')))
  | Resolve name =>
      let* r := createNewFolder_named (currentPath st) name in
      let '(p, success) := r in
      let i := if (success : bool) then 0 else currentIndex st in
      let* _ := render p i in
      ret (Continue (mkDirectory p i Browsing))
  end.

Definition handleDirectory_key (st : DirectoryState) (ev : KeyPress)
    : IO FS (Step DirectoryState string) :=
  match mode st with
  | Browsing => keyPressHandler st ev
  | Naming folderName => namingHandler st folderName ev
  end.

(** How a directory prompt stands after a sequence of keys. *)
Inductive DirectoryRun : Type :=
| DirPending (st : DirectoryState)
| DirResolved (path : string)
| DirExited
| DirThrown (e : Exn).

Fixpoint run_directory (st : DirectoryState) (evs : list KeyPress)
    (w : World FS) : World FS * DirectoryRun :=
  match evs with
  | [] => (w, DirPending st)
  | ev :: evs' =>
      if key_ctrl ev && key_is ev "c" then (w, DirExited)
      else match handleDirectory_key st ev w with
           | (w', Returned (Continue st')) => run_directory st' evs' w'
           | (w', Returned (Resolve p)) => (w', DirResolved p)
           | (w', Thrown e) => (w', DirThrown e)
           end
  end.

(** [handleDirectory(option)]: the first [render], then the keys. *)
Definition handleDirectory (evs : list KeyPress) (w : World FS)
    : World FS * DirectoryRun :=
  let st := mkDirectory (basePath_or_dot basePath) 0 Browsing in
  match render (currentPath st) (currentIndex st) w with
  | (w', Returned _) => run_directory st evs w'
  | (w', Thrown e) => (w', DirThrown e)
  end.

End Directory.
End Session.

(** ** An in-memory file system

    A small instance of [FileSystem], used to run the helpers on concrete
    trees: a finite map from normalised relative paths to nodes. Its errors
    are those of POSIX: [ENOENT] for a missing parent or directory,
    [EEXIST], [ENOTDIR], [EISDIR]. *)

Module MemFS.

Inductive Node : Type :=
| Dir
| File (content : string).

Abbreviation t := (gmap string Node).

Definition is_dir (n : Node) : bool :=
  match n with
  | Dir => true
  | File _ => false
  end.

Definition mem_existsSync (m : t) (p : string) : bool :=
  match m !! Path.normalize p with
  | Some _ => true
  | None => false
  end.

(** The entries directly below [q]. *)
Definition children (m : t) (q : string) : list Dirent :=
  omap (fun kv : string * Node =>
          if negb (String.eqb (fst kv) q)
             && String.eqb (Path.dirname (fst kv)) q
          then Some (mkDirent (Path.basename (fst kv)) (is_dir (snd kv)))
          else None)
       (map_to_list m).

Definition mem_readdirSync (m : t) (p : string) : outcome (list Dirent) :=
  match m !! Path.normalize p with
  | Some Dir => Returned (children m (Path.normalize p))
  | Some (File _) => Thrown (ErrnoException "ENOTDIR")
  | None => Thrown (ErrnoException "ENOENT")
  end.

Definition mem_mkdirSync (m : t) (p : string) : t * outcome unit :=
  let q := Path.normalize p in
  match m !! q with
  | Some _ => (m, Thrown (ErrnoException "EEXIST"))
  | None =>
      match m !! Path.dirname q with
      | Some Dir => (<[q := Dir]> m, Returned tt)
      | Some (File _) => (m, Thrown (ErrnoException "ENOTDIR"))
      | None => (m, Thrown (ErrnoException "ENOENT"))
      end
  end.

Definition mem_writeFileSync (m : t) (p data : string) : t * outcome unit :=
  let q := Path.normalize p in
  match m !! q with
  | Some Dir => (m, Thrown (ErrnoException "EISDIR"))
  | _ =>
      match m !! Path.dirname q with
      | Some Dir => (<[q := File data]> m, Returned tt)
      | Some (File _) => (m, Thrown (ErrnoException "ENOTDIR"))
      | None => (m, Thrown (ErrnoException "ENOENT"))
      end
  end.

#[global] Instance mem_FileSystem : FileSystem t := {|
  existsSync := mem_existsSync;
  readdirSync := mem_readdirSync;
  mkdirSync := mem_mkdirSync;
  writeFileSync := mem_writeFileSync
|}.

(** A working directory that holds nothing. *)
Definition empty_cwd : t := {[ "." := Dir ]}.

(** A working directory with the folder [foo], the folder [foo/bar] and the
    file [Component.ts]. *)
Definition sample : t :=
  <[ "Component.ts" := File "<template/>" ]>
    (<[ "foo/bar" := Dir ]> (<[ "foo" := Dir ]> empty_cwd)).

End MemFS.

(** Sessions over the two sample trees, nothing logged yet. *)
Definition empty_world : World MemFS.t := mkWorld MemFS.empty_cwd [].
Definition sample_world : World MemFS.t := mkWorld MemFS.sample [].


(** ** Reference definitions for the statements

    The cursor moves as the specification words them, and the order in
    which a multi-select is meant to resolve. The handlers above do not
    use them; the theorems compare the two. *)

(** A character key: a string, no control or meta modifier, and a key name
    that is neither return nor backspace. *)
Definition is_character_key (ev : KeyPress) (s : string) : Prop :=
  str ev = Some s /\ s <> EmptyString
  /\ key_ctrl ev = false /\ key_meta ev = false
  /\ key_is ev "return" = false /\ key_is ev "backspace" = false.

(** Up with wraparound over [n] entries. *)
Definition wrap_up (n i : Z) : Z := if 0 <? i then i - 1 else n - 1.

(** Down with wraparound over [n] entries. *)
Definition wrap_down (n i : Z) : Z := if i <? n - 1 then i + 1 else 0.

(** The indices in ascending numeric order. *)
Definition index_sort (a : list Z) : list Z := sort_by Z.leb a.

(** What the toggle key does to the selection. *)
Definition toggle (selectedItems : JSSet.t) (index : Z) : JSSet.t :=
  if JSSet.has selectedItems index then JSSet.delete selectedItems index
  else JSSet.add selectedItems index.

(** The labels of the selected indices, by ascending index. *)
Definition selected_labels_ascending (choices : list string)
    (selectedItems : JSSet.t) : list string :=
  map (fun index => js_index_or_empty choices index)
      (index_sort (JSSet.to_array selectedItems)).

(** What holds of the cursor and the selection of a multi-select over [n]
    choices, whatever keys were pressed. *)
Definition checkbox_inv (n : Z) (st : CheckboxState) : Prop :=
  -1 <= cb_currentIndex st <= Z.max (n - 1) 0
  /\ Forall (fun x => -1 <= x <= Z.max (n - 1) 0) (cb_selectedItems st)
  /\ NoDup (cb_selectedItems st).

(** Twelve items, more than one window holds. *)
Definition twelve_items : list string :=
  ["a"; "b"; "c"; "d"; "e"; "f"; "g"; "h"; "i"; "j"; "k"; "l"].

(** Eleven choices, and the keys that select the third and the eleventh. *)
Definition eleven_choices : list string :=
  ["c0"; "c1"; "c2"; "c3"; "c4"; "c5"; "c6"; "c7"; "c8"; "c9"; "c10"].

Definition select_third_and_eleventh : list KeyPress :=
  (repeat KeyDown 2 ++ [KeySpace] ++ repeat KeyDown 8 ++ [KeySpace])%list.

(** The cursor of the browser stands on an entry of the listing of the
    current path, if that listing returns. *)
Definition on_entry {FS : Type} `{FileSystem FS} (basePath : option string)
    (st : DirectoryState) (w : World FS) : Prop :=
  mode st = Browsing
  /\ forall choices,
       getChoices basePath (currentPath st) w = (w, Returned choices) ->
       0 <= currentIndex st < js_length choices.

(** ** The class [IO]: the key listener

    [process.stdin] keeps the listeners of the keypress event in the order
    they were added. The first one is not of the class: the field [rl] is
    initialised with [readline.createInterface] on [process.stdin], and on a
    terminal the interface makes stdin emit keypress events and listens to
    them itself, for its own line editor. Every call of [onKeyPress] wraps
    the handler in a new closure; a closure is identified by the number of
    closures made before it. [H] is whatever the handlers are. *)

Module IOClass.
Section WithHandler.
Context {H : Type}.

Inductive Listener : Type :=
| ReadlineListener
| Wrapper (id : nat) (handler : H).

Definition is_wrapper (id : nat) (l : Listener) : bool :=
  match l with
  | ReadlineListener => false
  | Wrapper id' _ => Nat.eqb id' id
  end.

(** The handler of the prompts that a listener calls; the listener of
    readline calls none. *)
Definition listener_handler (l : Listener) : option H :=
  match l with
  | ReadlineListener => None
  | Wrapper _ handler => Some handler
  end.

Record t : Type := mkIO {
  hideInput : bool;
  keyPressHandler : option nat;
  stdin_isRaw : bool;
  stdin_listeners : list Listener;
  closures : nat
}.

(** [new IO()]: the initialiser of [rl] puts the listener of readline on
    stdin, and [setupKeyPress] switches the terminal to raw mode. *)
Definition new : t :=
  {| hideInput := false; keyPressHandler := None; stdin_isRaw := true;
     stdin_listeners := [ReadlineListener]; closures := 0%nat |}.

(** [emitter.removeListener(name, listener)]: the instance added last is
    removed, if there is one. [ls] is the list of listeners, last one
    first. *)
Fixpoint remove_first (id : nat) (ls : list Listener) : list Listener :=
  match ls with
  | [] => []
  | l :: ls' => if is_wrapper id l then ls' else l :: remove_first id ls'
  end.

Definition removeListener (id : nat) (ls : list Listener) : list Listener :=
  rev (remove_first id (rev ls)).

Definition removeKeyPressHandler (io : t) : t :=
  match keyPressHandler io with
  | Some id =>
      {| hideInput := hideInput io; keyPressHandler := None;
         stdin_isRaw := stdin_isRaw io;
         stdin_listeners := removeListener id (stdin_listeners io);
         closures := closures io |}
  | None => io
  end.

Definition onKeyPress (handler : H) (io : t) : t :=
  let io' := removeKeyPressHandler io in
  {| hideInput := hideInput io';
     keyPressHandler := Some (closures io');
     stdin_isRaw := stdin_isRaw io';
     stdin_listeners :=
       (stdin_listeners io' ++ [Wrapper (closures io') handler])%list;
     closures := Datatypes.S (closures io') |}.

Definition setHideInput (hide : bool) (io : t) : t :=
  {| hideInput := hide; keyPressHandler := keyPressHandler io;
     stdin_isRaw := stdin_isRaw io; stdin_listeners := stdin_listeners io;
     closures := closures io |}.

Definition setRawMode (mode_ : bool) (io : t) : t :=
  setHideInput mode_
    {| hideInput := hideInput io; keyPressHandler := keyPressHandler io;
       stdin_isRaw := mode_; stdin_listeners := stdin_listeners io;
       closures := closures io |}.

(** The calls that the prompts make on their [IO]. *)
Inductive Call : Type :=
| CallOnKeyPress (handler : H)
| CallRemoveKeyPressHandler
| CallSetRawMode (mode_ : bool).

Definition call (io : t) (c : Call) : t :=
  match c with
  | CallOnKeyPress handler => onKeyPress handler io
  | CallRemoveKeyPressHandler => removeKeyPressHandler io
  | CallSetRawMode mode_ => setRawMode mode_ io
  end.

(** The handlers of the prompts that a keypress event reaches, in the order
    they are called; [None] when the wrapper of one of them ends the process
    on ctrl-c. *)
Definition emit_keypress (io : t) (ev : KeyPress) : option (list H) :=
  let handlers := omap listener_handler (stdin_listeners io) in
  if key_ctrl ev && key_is ev "c" then
    match handlers with
    | [] => Some []
    | _ :: _ => None
    end
  else Some handlers.

(** The handler that is installed after a sequence of calls: the one of the
    last [onKeyPress] that no [removeKeyPressHandler] followed. *)
Definition installed (calls : list Call) : option H :=
  fold_left (fun h c => match c with
                        | CallOnKeyPress handler => Some handler
                        | CallRemoveKeyPressHandler => None
                        | CallSetRawMode _ => h
                        end) calls None.

End WithHandler.
End IOClass.

(** Next to the listener of readline there is one listener at most, and it
    is the wrapper that [keyPressHandler] names. *)
Definition one_listener {H : Type} (io : IOClass.t (H := H)) (h : option H)
    : Prop :=
  match h with
  | Some handler =>
      exists id, IOClass.keyPressHandler io = Some id
                 /\ IOClass.stdin_listeners io
                    = [IOClass.ReadlineListener; IOClass.Wrapper id handler]
  | None =>
      IOClass.keyPressHandler io = None
      /\ IOClass.stdin_listeners io = [IOClass.ReadlineListener]
  end.

(** ** What [render] writes

    The calls that a [render] makes on its [IO], in order. *)

Inductive IOCall : Type :=
| IOclear
| IOmessage (message : string)
| IOnewLine
| IOhint (text : string)
| IOchoice (choice : string) (isSelected : bool) (prefix : string).

(** [array.forEach((x, i) => f(x, i))], the index starting at [i]. *)
Fixpoint forEach_from {A : Type} (f : A -> Z -> list IOCall) (a : list A)
    (i : Z) : list IOCall :=
  match a with
  | [] => []
  | x :: a' => (f x i ++ forEach_from f a' (i + 1))%list
  end.

Definition HINT_UP : string := "   ▲".
Definition HINT_DOWN : string := "   ▼".
Definition LF : string := String (ascii_of_nat 10) EmptyString.

(** [render] of [handleSelectable]; [type] is [list] or [nlist]. *)
Definition render_selectable (type message : string) (choices : list string)
    (currentIndex : Z) : list IOCall :=
  let r := getVisibleRange_default choices currentIndex in
  let visible := js_slice choices (start r) (end_ r) in
  ([IOclear; IOmessage message; IOnewLine]
   ++ (if showTop r then [IOhint HINT_UP] else [])
   ++ [IOnewLine]
   ++ forEach_from
        (fun choice i =>
           let actualIndex := start r + i in
           let prefix :=
             if String.eqb type "nlist"
             then String.append (js_toString (actualIndex + 1)) ") "
             else EmptyString in
           [IOchoice choice (actualIndex =? currentIndex) prefix; IOnewLine])
        visible 0
   ++ (if showBottom r then [IOhint HINT_DOWN] else [])
   ++ [IOnewLine;
       IOhint (String.append LF (String.append "(Enter to confirm)" LF))])%list.

Definition MARK_SELECTED : string := "⬢".
Definition MARK_UNSELECTED : string := "⬡".

(** [render] of [handleCheckbox]. *)
Definition render_checkbox (message : string) (choices : list string)
    (st : CheckboxState) : list IOCall :=
  let r := getVisibleRange_default choices (cb_currentIndex st) in
  let visible := js_slice choices (start r) (end_ r) in
  ([IOclear; IOmessage message; IOnewLine]
   ++ (if showTop r then [IOhint HINT_UP] else [])
   ++ [IOnewLine]
   ++ forEach_from
        (fun choice i =>
           let actualIndex := start r + i in
           let isSelected := JSSet.has (cb_selectedItems st) actualIndex in
           let marker := if isSelected then MARK_SELECTED else MARK_UNSELECTED in
           [IOchoice choice (actualIndex =? cb_currentIndex st)
              (String.append marker "  ");
            IOnewLine])
        visible 0
   ++ (if showBottom r then [IOhint HINT_DOWN] else [])
   ++ [IOnewLine;
       IOhint (String.append LF
                 (String.append "(Space to select, Enter to confirm)" LF))])%list.

(** The rows of choices among the calls of a [render]: label, highlight
    and prefix, top row first. *)
Definition drawn_rows (calls : list IOCall) : list (string * bool * string) :=
  omap (fun c => match c with
                 | IOchoice choice isSelected prefix =>
                     Some (choice, isSelected, prefix)
                 | _ => None
                 end) calls.

(** The scroll marks among the calls of a [render]. *)
Definition drawn_hints (calls : list IOCall) : list string :=
  omap (fun c => match c with
                 | IOhint text =>
                     if String.eqb text HINT_UP || String.eqb text HINT_DOWN
                     then Some text else None
                 | _ => None
                 end) calls.

(** ** Names of directory entries *)

Fixpoint has_slash (s : string) : bool :=
  match s with
  | EmptyString => false
  | String c s' => Ascii.eqb c Path.slash || has_slash s'
  end.

(** A name as a directory listing returns them: not empty, no separator
    in it, and neither of the two dot entries. *)
Definition plain_name (s : string) : Prop :=
  s <> EmptyString /\ has_slash s = false /\ s <> "." /\ s <> "..".

(** * Properties *)

(** ** Window invariant *)

Section Window.
Context {A : Type}.
Implicit Types (items : list A) (currentIndex : Z).

Lemma getVisibleRange_indicators items currentIndex maxVisible :
  let r := getVisibleRange items currentIndex maxVisible in
  showTop r = (0 <? start r) /\ showBottom r = (end_ r <? js_length items).
Proof. split; reflexivity. Qed.

Lemma getVisibleRange_bounds items currentIndex :
  0 <= currentIndex < js_length items ->
  let r := getVisibleRange items currentIndex MAX_VISIBLE_ITEMS in
  0 <= start r <= currentIndex /\ currentIndex < end_ r <= js_length items
  /\ end_ r - start r <= MAX_VISIBLE_ITEMS.
Proof.
  intros Hi. unfold getVisibleRange, MAX_VISIBLE_ITEMS. cbv zeta. cbn [start end_].
  change (10 / 2) with 5.
  set (n := js_length items) in *.
  repeat match goal with
         | |- context [?a =? ?b] => destruct (Z.eqb_spec a b)
         end; lia.
Qed.

Lemma getVisibleRange_empty (currentIndex : Z) maxVisible :
  0 <= currentIndex -> 0 <= maxVisible ->
  getVisibleRange (@nil A) currentIndex maxVisible = mkRange 0 0 false false.
Proof.
  intros Hi Hm. unfold getVisibleRange, js_length. cbv zeta.
  change (Z.of_nat (List.length (@nil A))) with 0.
  assert (Hh : 0 <= maxVisible / 2) by (apply Z.div_pos; lia).
  replace (Z.min 0 (Z.max 0 (currentIndex - maxVisible / 2) + maxVisible))
    with 0 by lia.
  cbn [Z.eqb]. replace (Z.max 0 (0 - maxVisible)) with 0 by lia.
  cbn [Z.eqb]. replace (Z.min 0 maxVisible) with 0 by lia. reflexivity.
Qed.

End Window.

(** C3. For every item list and every [currentIndex] with
    [0 <= currentIndex < max(itemCount, 1)], the window of [getVisibleRange]
    with [maxVisible = 10] satisfies: when the list is not empty,
    [0 <= start <= currentIndex < end <= itemCount] and
    [end - start <= maxVisible]; [showTop] is true exactly when [start > 0]
    and [showBottom] exactly when [end < itemCount]; on the empty list the
    window is [start = end = 0] with both indicators false. *)
Theorem C3_window_invariant {A : Type} (items : list A) (currentIndex : Z) :
  0 <= currentIndex < Z.max (js_length items) 1 ->
  let r := getVisibleRange items currentIndex MAX_VISIBLE_ITEMS in
  (0 < js_length items ->
     0 <= start r /\ start r <= currentIndex /\ currentIndex < end_ r
     /\ end_ r <= js_length items /\ end_ r - start r <= MAX_VISIBLE_ITEMS)
  /\ (showTop r = true <-> start r > 0)
  /\ (showBottom r = true <-> end_ r < js_length items)
  /\ (js_length items = 0 ->
        start r = 0 /\ end_ r = 0 /\ showTop r = false /\ showBottom r = false).
Proof.
  intros Hi r.
  split; [|split; [|split]].
  - intros Hpos.
    pose proof (getVisibleRange_bounds items currentIndex) as Hb.
    cbv zeta in Hb. fold r in Hb. lia.
  - change (showTop r) with (0 <? start r). lia.
  - change (showBottom r) with (end_ r <? js_length items). lia.
  - intros Hnil. destruct items as [|x items]; [|discriminate Hnil].
    subst r. rewrite getVisibleRange_empty.
    + repeat split.
    + cbn in Hi. lia.
    + unfold MAX_VISIBLE_ITEMS. lia.
Qed.

Lemma C3_window_invariant_witness :
  0 <= 7 < Z.max (js_length twelve_items) 1
  /\ start (getVisibleRange twelve_items 7 MAX_VISIBLE_ITEMS) = 2
  /\ end_ (getVisibleRange twelve_items 7 MAX_VISIBLE_ITEMS) = 12
  /\ (showTop (getVisibleRange twelve_items 7 MAX_VISIBLE_ITEMS) = true
      <-> start (getVisibleRange twelve_items 7 MAX_VISIBLE_ITEMS) > 0).
Proof.
  assert (Hi : 0 <= 7 < Z.max (js_length twelve_items) 1)
    by (vm_compute; split; [discriminate | reflexivity]).
  split; [exact Hi | split; [reflexivity | split; [reflexivity|]]].
  exact (proj1 (proj2 (C3_window_invariant twelve_items 7 Hi))).
Defined.

(** ** Keys and runs *)

Lemma key_is_name ev n : key_is ev n = true <-> key_name ev = Some n.
Proof.
  unfold key_is. destruct (key_name ev) as [m|].
  - rewrite String.eqb_eq. split; congruence.
  - split; discriminate.
Qed.

Lemma key_is_other ev n m : key_is ev n = true -> n <> m -> key_is ev m = false.
Proof.
  intros Hn Hne. apply key_is_name in Hn.
  destruct (key_is ev m) eqn:Hm; [|reflexivity].
  apply key_is_name in Hm. congruence.
Qed.

(** A key with a name other than [c] is not the interrupt. *)
Lemma not_interrupt ev n :
  key_is ev n = true -> n <> "c" -> key_ctrl ev && key_is ev "c" = false.
Proof.
  intros Hn Hne. rewrite (key_is_other ev n "c" Hn Hne). apply andb_false_r.
Qed.

Ltac key_cases :=
  repeat match goal with
         | H : key_is ?ev ?n = true |- context [key_is ?ev ?m] =>
             first [ rewrite H
                   | rewrite (key_is_other ev n m H) by discriminate ]
         end.

Section RunnerFacts.
Context {S R : Type} (handler : S -> KeyPress -> Step S R).

Lemma run_keys_app s evs1 evs2 s' :
  run_keys handler s evs1 = Pending s' ->
  run_keys handler s (evs1 ++ evs2)%list = run_keys handler s' evs2.
Proof.
  revert s. induction evs1 as [|ev evs1 IH]; intros s Hrun; cbn in *.
  - congruence.
  - destruct (key_ctrl ev && key_is ev "c"); [discriminate|].
    destruct (handler s ev); [auto | discriminate].
Qed.

(** The same key pressed [k] times, when each press continues with [f]. *)
Lemma run_keys_repeat (f : S -> S) ev k s :
  key_ctrl ev && key_is ev "c" = false ->
  (forall s0, handler s0 ev = Continue (f s0)) ->
  run_keys handler s (repeat ev k) = Pending (Nat.iter k f s).
Proof.
  intros Hc Hf. revert s. induction k as [|k IH]; intros s; cbn [repeat run_keys].
  - reflexivity.
  - rewrite Hc, Hf, IH. now rewrite Nat.iter_succ_r.
Qed.

End RunnerFacts.

(** ** The cursor *)

Lemma iter_wrap_down n k i :
  0 <= i < n -> Nat.iter k (wrap_down n) i = (i + Z.of_nat k) mod n.
Proof.
  intros Hi. induction k as [|k IH].
  - cbn. rewrite Z.add_0_r, Z.mod_small; lia.
  - rewrite Nat.iter_succ, IH. unfold wrap_down.
    assert (Hm : 0 <= (i + Z.of_nat k) mod n < n) by (apply Z.mod_pos_bound; lia).
    replace (i + Z.of_nat (Datatypes.S k)) with ((i + Z.of_nat k) + 1) by lia.
    destruct (Z.ltb_spec ((i + Z.of_nat k) mod n) (n - 1)) as [Hlt|Hge].
    + rewrite <- (Z.mod_small ((i + Z.of_nat k) mod n + 1) n) by lia.
      rewrite Zplus_mod_idemp_l. reflexivity.
    + assert (He : (i + Z.of_nat k) mod n = n - 1) by lia.
      rewrite <- Zplus_mod_idemp_l, He.
      replace (n - 1 + 1) with n by lia. now rewrite Z.mod_same by lia.
Qed.

(** Down, pressed as often as there are entries, is a full turn. *)
Lemma wrap_down_full_turn n i :
  0 <= i < Z.of_nat n -> Nat.iter n (wrap_down (Z.of_nat n)) i = i.
Proof.
  intros Hi. rewrite iter_wrap_down by exact Hi.
  rewrite <- (Z.mul_1_l (Z.of_nat n)) at 1.
  rewrite Z.mod_add by lia. apply Z.mod_small. exact Hi.
Qed.

(** ** Single-select and numbered-select *)

Lemma handleSelectable_up choices i ev :
  key_is ev "up" = true ->
  handleSelectable_key choices i ev = Continue (wrap_up (js_length choices) i).
Proof. intros Hk. unfold handleSelectable_key. now rewrite Hk. Qed.

Lemma handleSelectable_down choices i ev :
  key_is ev "down" = true ->
  handleSelectable_key choices i ev = Continue (wrap_down (js_length choices) i).
Proof. intros Hk. unfold handleSelectable_key. key_cases. reflexivity. Qed.

Lemma handleSelectable_return choices i ev :
  key_is ev "return" = true ->
  handleSelectable_key choices i ev = Resolve (js_index_or_empty choices i).
Proof. intros Hk. unfold handleSelectable_key. key_cases. reflexivity. Qed.

Lemma js_index_nil {A : Type} (i : Z) : js_index (@nil A) i = None.
Proof. unfold js_index. destruct (i <? 0); [reflexivity|]. apply lookup_nil. Qed.

(** Whatever was pressed before, a list prompt without choices has nothing
    but the empty string to resolve with. *)
Lemma handleSelectable_nil_resolved i evs r :
  run_keys (handleSelectable_key []) i evs = Resolved r -> r = EmptyString.
Proof.
  revert i. induction evs as [|ev evs IH]; intros i Hrun; cbn in Hrun.
  - discriminate.
  - destruct (key_ctrl ev && key_is ev "c"); [discriminate|].
    destruct (handleSelectable_key [] i ev) as [i'|r'] eqn:Hstep.
    + eauto.
    + unfold handleSelectable_key in Hstep.
      destruct (key_is ev "up"); [discriminate|].
      destruct (key_is ev "down"); [discriminate|].
      destruct (key_is ev "return"); [|discriminate].
      unfold js_index_or_empty in Hstep. rewrite js_index_nil in Hstep.
      congruence.
Qed.

(** C9. A list or nlist prompt whose choice list is empty or absent still
    resolves on the confirm key, and with the empty string: the read
    [choices[currentIndex] || ''] returns a string for every cursor value,
    the cursor [-1] that the up key produces included. *)
Theorem C9_empty_choices_resolve (choices : option (list string))
    (ev : KeyPress) :
  key_is ev "return" = true ->
  (forall (l : list string) (i : Z),
      exists r, handleSelectable_key l i ev = Resolve r)
  /\ (choices = None \/ choices = Some [] ->
      (forall i : Z,
          handleSelectable_key (choices_or_empty choices) i ev
          = Resolve EmptyString)
      /\ (forall evs i,
             handleSelectable choices evs = Pending i ->
             handleSelectable choices (evs ++ [ev])%list = Resolved EmptyString)
      /\ (forall evs r,
             handleSelectable choices evs = Resolved r -> r = EmptyString)).
Proof.
  intros Hk. split.
  - intros l i. eexists. apply handleSelectable_return. exact Hk.
  - intros Hnil.
    assert (Hc : choices_or_empty choices = []) by (destruct Hnil; subst; reflexivity).
    assert (Hstep : forall i : Z,
               handleSelectable_key (choices_or_empty choices) i ev
               = Resolve EmptyString).
    { intros i. rewrite handleSelectable_return by exact Hk.
      rewrite Hc. unfold js_index_or_empty. now rewrite js_index_nil. }
    split; [exact Hstep | split].
    + intros evs i Hrun. unfold handleSelectable in *.
      rewrite (run_keys_app _ _ _ _ _ Hrun). cbn [run_keys].
      rewrite (not_interrupt ev "return" Hk) by discriminate.
      now rewrite Hstep.
    + intros evs r Hrun. unfold handleSelectable in Hrun. rewrite Hc in Hrun.
      eapply handleSelectable_nil_resolved. exact Hrun.
Qed.

Lemma C9_empty_choices_resolve_witness :
  key_is KeyReturn "return" = true
  /\ handleSelectable None [KeyUp; KeyReturn] = Resolved EmptyString.
Proof.
  split; [reflexivity|].
  exact (proj1 (proj2 (proj2 (C9_empty_choices_resolve None KeyReturn eq_refl)
                         (or_introl eq_refl)))
               [KeyUp] (-1) eq_refl).
Defined.

(** ** Text prompt *)

Lemma js_or_spec s d :
  js_or s d = if String.eqb s EmptyString then d else s.
Proof. reflexivity. Qed.

Lemma input_defaultValue_spec (default_ : option string) :
  input_defaultValue default_ = default EmptyString default_.
Proof.
  destruct default_ as [d|]; cbn; [|reflexivity].
  unfold js_or. destruct (String.eqb_spec d EmptyString); congruence.
Qed.

Lemma handleInput_return defaultValue st ev :
  key_is ev "return" = true ->
  handleInput_key defaultValue st ev = Resolve (js_or (input st) defaultValue).
Proof. intros Hk. unfold handleInput_key. now rewrite Hk. Qed.

Lemma handleInput_backspace_empty defaultValue h ev :
  key_is ev "backspace" = true ->
  handleInput_key defaultValue (mkInput EmptyString h) ev
  = Continue (mkInput EmptyString false).
Proof. intros Hk. unfold handleInput_key. key_cases. reflexivity. Qed.

Lemma handleInput_backspaces default_ ev k :
  key_is ev "backspace" = true ->
  handleInput default_ (repeat ev (Datatypes.S k))
  = Pending (mkInput EmptyString false).
Proof.
  intros Hk. unfold handleInput.
  assert (Hc := not_interrupt ev "backspace" Hk ltac:(discriminate)).
  induction k as [|k IH].
  - cbn. rewrite Hc. now rewrite handleInput_backspace_empty.
  - change (repeat ev (Datatypes.S (Datatypes.S k)))
      with ([ev] ++ repeat ev (Datatypes.S k))%list.
    erewrite run_keys_app.
    + exact IH.
    + cbn. rewrite Hc. now rewrite handleInput_backspace_empty.
Qed.

Lemma append_length s1 s2 :
  String.length (String.append s1 s2) = (String.length s1 + String.length s2)%nat.
Proof.
  induction s1 as [|c s1 IH]; [reflexivity|].
  simpl. f_equal. exact IH.
Qed.

Lemma length_zero_empty s : String.length s = 0%nat <-> s = EmptyString.
Proof. destruct s; cbn; split; congruence. Qed.

Lemma js_drop_last_append s c :
  js_drop_last (String.append s (String c EmptyString)) = s.
Proof.
  unfold js_drop_last. rewrite append_length. cbn [String.length].
  replace (String.length s + 1 - 1)%nat with (String.length s) by lia.
  induction s as [|a s IH]; [reflexivity|].
  simpl. f_equal. exact IH.
Qed.

Lemma handleInput_character defaultValue st ev s :
  is_character_key ev s ->
  handleInput_key defaultValue st ev
  = Continue (mkInput (String.append (input st) s) true).
Proof.
  intros (Hs & Hne & Hctrl & Hmeta & Hr & Hb).
  unfold handleInput_key, str_truthy, str_value, resetLine.
  rewrite Hr, Hb, Hs, Hctrl, Hmeta. cbn [default from_option negb andb input].
  unfold id. destruct (String.eqb_spec s EmptyString) as [|_]; [contradiction|].
  cbn [negb andb input].
  assert (Hlen : (0 <? String.length (String.append (input st) s))%nat = true).
  { apply Nat.ltb_lt. rewrite append_length.
    destruct s; [contradiction | cbn; lia]. }
  now rewrite Hlen.
Qed.

Lemma character_key_not_interrupt ev s :
  is_character_key ev s -> key_ctrl ev && key_is ev "c" = false.
Proof. intros (_ & _ & Hctrl & _). now rewrite Hctrl. Qed.

Lemma run_input_typed defaultValue st evs strs :
  Forall2 is_character_key evs strs ->
  run_keys (handleInput_key defaultValue) st evs
  = Pending (mkInput (fold_left String.append strs (input st))
               (match strs with [] => hasInput st | _ => true end)).
Proof.
  intros Hty. revert st. induction Hty as [|ev s evs strs Hev Hty IH]; intros st.
  - cbn. now destruct st.
  - cbn [run_keys fold_left]. rewrite (character_key_not_interrupt ev s Hev).
    rewrite (handleInput_character _ _ _ _ Hev), IH. cbn [input hasInput].
    now destruct strs.
Qed.

(** C4. In a text prompt the confirm key resolves with the typed buffer if
    it is not empty, and with the configured default otherwise (the empty
    string if there is none). Confirm right away resolves with the default;
    backspace on the empty buffer leaves the buffer empty, so backspace and
    then confirm, nothing typed, resolves with the default as well. The
    buffer is what was typed: after character keys in a row it holds their
    strings, appended in the order they were typed, and confirm resolves
    with that text. *)
Theorem C4_text_default_law (default_ : option string)
    (confirm backspace : KeyPress) :
  key_is confirm "return" = true ->
  key_is backspace "backspace" = true ->
  (forall evs st,
      handleInput default_ evs = Pending st ->
      handleInput default_ (evs ++ [confirm])%list
      = Resolved (if String.eqb (input st) EmptyString
                  then default EmptyString default_ else input st))
  /\ handleInput default_ [confirm] = Resolved (default EmptyString default_)
  /\ (forall h,
         handleInput_key (input_defaultValue default_)
           (mkInput EmptyString h) backspace
         = Continue (mkInput EmptyString false))
  /\ (forall k,
         handleInput default_ (repeat backspace k ++ [confirm])%list
         = Resolved (default EmptyString default_))
  /\ (forall evs strs,
         Forall2 is_character_key evs strs ->
         handleInput default_ evs
         = Pending (mkInput (fold_left String.append strs EmptyString)
                      (match strs with [] => false | _ => true end))
         /\ handleInput default_ (evs ++ [confirm])%list
            = Resolved (js_or (fold_left String.append strs EmptyString)
                              (default EmptyString default_))).
Proof.
  intros Hc Hb.
  assert (Hnc := not_interrupt confirm "return" Hc ltac:(discriminate)).
  assert (Hgen : forall evs st,
      handleInput default_ evs = Pending st ->
      handleInput default_ (evs ++ [confirm])%list
      = Resolved (if String.eqb (input st) EmptyString
                  then default EmptyString default_ else input st)).
  { intros evs st Hrun. unfold handleInput in *.
    rewrite (run_keys_app _ _ _ _ _ Hrun). cbn [run_keys]. rewrite Hnc.
    rewrite handleInput_return by exact Hc.
    now rewrite js_or_spec, input_defaultValue_spec. }
  split; [exact Hgen | split; [|split; [|split]]].
  - apply (Hgen [] (mkInput EmptyString false)). reflexivity.
  - intros h. now apply handleInput_backspace_empty.
  - intros [|k].
    + apply (Hgen [] (mkInput EmptyString false)). reflexivity.
    + rewrite (Hgen _ _ (handleInput_backspaces default_ backspace k Hb)).
      reflexivity.
  - intros evs strs Hty.
    assert (Hrun : handleInput default_ evs
                   = Pending (mkInput (fold_left String.append strs EmptyString)
                                (match strs with [] => false | _ => true end))).
    { unfold handleInput. now rewrite (run_input_typed _ _ _ _ Hty). }
    split; [exact Hrun|].
    rewrite (Hgen _ _ Hrun). cbn [input]. now rewrite js_or_spec.
Qed.

Lemma C4_text_default_law_witness :
  (key_is KeyReturn "return" = true /\ key_is KeyBackspace "backspace" = true)
  /\ handleInput (Some "Component") [KeyReturn] = Resolved "Component"
  /\ handleInput (Some "Component") [KeyBackspace; KeyReturn]
     = Resolved "Component"
  /\ handleInput (Some "Component") [typed "a" "a"; typed "b" "b"; KeyReturn]
     = Resolved "ab".
Proof.
  pose proof (C4_text_default_law (Some "Component") KeyReturn KeyBackspace
                eq_refl eq_refl) as [_ [H0 [_ [Hk Hty]]]].
  split; [split; reflexivity | split; [|split]].
  - exact H0.
  - exact (Hk 1%nat).
  - apply (Hty [typed "a" "a"; typed "b" "b"] ["a"; "b"]).
    repeat constructor; discriminate.
Defined.

(** ** Confirm prompt *)

Lemma ascii_toLowerCase_y c :
  ascii_toLowerCase c = "y"%char <-> c = "y"%char \/ c = "Y"%char.
Proof.
  destruct c as [[] [] [] [] [] [] [] []]; vm_compute;
    (split; [intros Hc; first [discriminate Hc | now left | now right]
            | intros [Hc|Hc]; first [discriminate Hc | reflexivity]]).
Qed.

Lemma ascii_toLowerCase_n c :
  ascii_toLowerCase c = "n"%char <-> c = "n"%char \/ c = "N"%char.
Proof.
  destruct c as [[] [] [] [] [] [] [] []]; vm_compute;
    (split; [intros Hc; first [discriminate Hc | now left | now right]
            | intros [Hc|Hc]; first [discriminate Hc | reflexivity]]).
Qed.

(** The strings that lower-case to [y] or [n] are the four one-letter
    strings [y], [Y], [n] and [N]. *)
Lemma js_toLowerCase_yn s :
  (String.eqb (js_toLowerCase s) "y" || String.eqb (js_toLowerCase s) "n") = true
  <-> s = "y" \/ s = "Y" \/ s = "n" \/ s = "N".
Proof.
  rewrite orb_true_iff, !String.eqb_eq. split.
  - destruct s as [|c [|c' s']]; cbn; intros [Hs|Hs];
      try discriminate Hs; injection Hs as Hs.
    + apply ascii_toLowerCase_y in Hs as [->| ->]; auto.
    + apply ascii_toLowerCase_n in Hs as [->| ->]; auto.
  - intros [->|[->|[->| ->]]]; cbn; auto.
Qed.

Lemma handleConfirm_return defaultValue st ev :
  key_is ev "return" = true ->
  handleConfirm_key defaultValue st ev
  = Resolve (String.eqb (js_toLowerCase (js_or (input st) defaultValue)) "y").
Proof. intros Hk. unfold handleConfirm_key. now rewrite Hk. Qed.

Lemma handleConfirm_character defaultValue st ev s :
  is_character_key ev s ->
  handleConfirm_key defaultValue st ev
  = if String.eqb (js_toLowerCase s) "y" || String.eqb (js_toLowerCase s) "n"
    then Continue (mkInput (js_toLowerCase s) true)
    else Continue st.
Proof.
  intros (Hs & Hne & Hctrl & Hmeta & Hr & Hb).
  unfold handleConfirm_key, str_truthy, str_value.
  rewrite Hr, Hb, Hs, Hctrl, Hmeta. cbn [default from_option negb andb].
  unfold id.
  destruct (String.eqb_spec s EmptyString) as [|_]; [contradiction|].
  cbn [negb andb].
  destruct (String.eqb (js_toLowerCase s) "y" || String.eqb (js_toLowerCase s) "n")
    eqn:Hyn; [|reflexivity].
  apply js_toLowerCase_yn in Hyn as [->|[->|[->| ->]]]; reflexivity.
Qed.

(** C5. In a confirm prompt the accepted characters are [y] and [n] in
    either case: such a key replaces the buffer by the lower-case letter,
    any other character key changes nothing. An absent default counts as
    [true]. On the confirm key the result is [true] exactly when the
    lower-cased buffer-or-default is [y]: with default [true], [N] or [n]
    before confirm gives [false], and confirm alone gives [true]. *)
Theorem C5_confirm_law (confirm : KeyPress) :
  key_is confirm "return" = true ->
  (forall defaultValue st ev s,
      is_character_key ev s ->
      (s = "y" \/ s = "Y" \/ s = "n" \/ s = "N" ->
       handleConfirm_key defaultValue st ev
       = Continue (mkInput (js_toLowerCase s) true))
      /\ (~ (s = "y" \/ s = "Y" \/ s = "n" \/ s = "N") ->
          handleConfirm_key defaultValue st ev = Continue st))
  /\ confirm_defaultValue None = confirm_defaultValue (Some true)
  /\ (forall default_ evs st,
         handleConfirm default_ evs = Pending st ->
         handleConfirm default_ (evs ++ [confirm])%list
         = Resolved (String.eqb
                       (js_toLowerCase
                          (if String.eqb (input st) EmptyString
                           then confirm_defaultValue default_ else input st))
                       "y"))
  /\ (forall ev s,
         is_character_key ev s -> s = "N" \/ s = "n" ->
         handleConfirm (Some true) [ev; confirm] = Resolved false)
  /\ handleConfirm (Some true) [confirm] = Resolved true
  /\ handleConfirm None [confirm] = Resolved true.
Proof.
  intros Hc.
  assert (Hnc := not_interrupt confirm "return" Hc ltac:(discriminate)).
  assert (Hgen : forall default_ evs st,
         handleConfirm default_ evs = Pending st ->
         handleConfirm default_ (evs ++ [confirm])%list
         = Resolved (String.eqb
                       (js_toLowerCase
                          (if String.eqb (input st) EmptyString
                           then confirm_defaultValue default_ else input st))
                       "y")).
  { intros default_ evs st Hrun. unfold handleConfirm in *.
    rewrite (run_keys_app _ _ _ _ _ Hrun). cbn [run_keys]. rewrite Hnc.
    now rewrite handleConfirm_return by exact Hc. }
  split; [|split; [reflexivity | split; [exact Hgen | split; [|split]]]].
  - intros defaultValue st ev s Hev.
    rewrite (handleConfirm_character defaultValue st ev s Hev). split.
    + intros Hyn. apply js_toLowerCase_yn in Hyn. now rewrite Hyn.
    + intros Hyn.
      destruct (String.eqb (js_toLowerCase s) "y" || String.eqb (js_toLowerCase s) "n")
        eqn:Hb; [|reflexivity].
      apply js_toLowerCase_yn in Hb. contradiction.
  - intros ev s Hev Hs.
    assert (Hstep : handleConfirm (Some true) [ev] = Pending (mkInput "n" true)).
    { unfold handleConfirm. cbn [run_keys].
      destruct Hev as (Hs' & Hne & Hctrl & Hmeta & Hr & Hb).
      rewrite Hctrl. cbn [andb].
      rewrite (handleConfirm_character _ _ ev s)
        by (repeat split; assumption).
      destruct Hs as [->| ->]; reflexivity. }
    apply (Hgen (Some true) [ev] _ Hstep).
  - apply (Hgen (Some true) [] (mkInput EmptyString false)). reflexivity.
  - apply (Hgen None [] (mkInput EmptyString false)). reflexivity.
Qed.

Lemma C5_confirm_law_witness :
  key_is KeyReturn "return" = true
  /\ handleConfirm (Some true) [typed "N" "n"; KeyReturn] = Resolved false
  /\ handleConfirm (Some true) [typed "n" "n"; KeyReturn] = Resolved false
  /\ handleConfirm (Some true) [KeyReturn] = Resolved true.
Proof.
  pose proof (C5_confirm_law KeyReturn eq_refl) as (_ & _ & _ & Hn & Ht & _).
  split; [reflexivity | split; [|split]].
  - apply (Hn (typed "N" "n") "N"); [|now left].
    repeat split; discriminate.
  - apply (Hn (typed "n" "n") "n"); [|now right].
    repeat split; discriminate.
  - exact Ht.
Defined.

(** ** Sorting *)

Section InsertionSortFacts.
Context {A : Type} (le : A -> A -> bool).

Local Abbreviation R := (le_rel le).

Lemma insert_by_perm x l : insert_by le x l ≡ₚ x :: l.
Proof.
  induction l as [|y l IH]; cbn; [reflexivity|].
  destruct (le x y); [reflexivity|].
  rewrite IH. apply perm_swap.
Qed.

Lemma sort_by_perm l : sort_by le l ≡ₚ l.
Proof.
  induction l as [|x l IH]; cbn; [reflexivity|].
  now rewrite insert_by_perm, IH.
Qed.

Hypothesis le_total : forall x y, le x y = true \/ le y x = true.

Lemma insert_by_sorted x l : Sorted R l -> Sorted R (insert_by le x l).
Proof.
  induction l as [|y l IH]; intros Hs; cbn.
  - repeat constructor.
  - destruct (le x y) eqn:Hxy.
    + constructor; [exact Hs | constructor; exact Hxy].
    + apply Sorted_inv in Hs as [Hs Hhd].
      constructor; [apply IH; exact Hs|].
      assert (Hyx : R y x) by (destruct (le_total x y); [congruence | assumption]).
      destruct l as [|z l]; cbn.
      * constructor; exact Hyx.
      * destruct (le x z); constructor; [exact Hyx|].
        apply HdRel_inv in Hhd. exact Hhd.
Qed.

Lemma sort_by_sorted l : Sorted R (sort_by le l).
Proof.
  induction l as [|x l IH]; cbn; [constructor | now apply insert_by_sorted].
Qed.

Hypothesis le_trans : forall x y z, le x y = true -> le y z = true -> le x z = true.
Hypothesis le_antisym : forall x y, le x y = true -> le y x = true -> x = y.

(** The sorted array depends on the elements only, not on their order. *)
Lemma sort_by_unique l1 l2 : l1 ≡ₚ l2 -> sort_by le l1 = sort_by le l2.
Proof.
  intros Hp.
  assert (Htr : Transitive R) by (intros x y z; apply le_trans).
  assert (Has : AntiSymm eq R) by (intros x y; apply le_antisym).
  apply (Sorted_unique R).
  - apply sort_by_sorted.
  - apply sort_by_sorted.
  - now rewrite !sort_by_perm.
Qed.

End InsertionSortFacts.

(** Two comparisons that agree on the elements of an array sort it alike. *)
Lemma insert_by_ext {A : Type} (le1 le2 : A -> A -> bool) (P : A -> Prop) x l :
  (forall a b, P a -> P b -> le1 a b = le2 a b) ->
  P x -> Forall P l -> insert_by le1 x l = insert_by le2 x l.
Proof.
  intros Hext Hx Hl. induction Hl as [|y l Hy Hl IH]; cbn; [reflexivity|].
  rewrite (Hext x y Hx Hy), IH. reflexivity.
Qed.

Lemma insert_by_Forall {A : Type} (le : A -> A -> bool) (P : A -> Prop) x l :
  P x -> Forall P l -> Forall P (insert_by le x l).
Proof.
  intros Hx Hl. rewrite insert_by_perm. now constructor.
Qed.

Lemma sort_by_ext {A : Type} (le1 le2 : A -> A -> bool) (P : A -> Prop) l :
  (forall a b, P a -> P b -> le1 a b = le2 a b) ->
  Forall P l -> sort_by le1 l = sort_by le2 l.
Proof.
  intros Hext Hl. induction Hl as [|x l Hx Hl IH]; cbn; [reflexivity|].
  rewrite IH. apply (insert_by_ext le1 le2 P); [exact Hext | exact Hx |].
  rewrite sort_by_perm. exact Hl.
Qed.

(** *** The order of [sort()] on numbers *)

Lemma string_compare_refl s : String.compare s s = Eq.
Proof.
  induction s as [|c s IH]; cbn; [reflexivity|].
  unfold Ascii.compare. now rewrite N.compare_refl.
Qed.

Lemma string_leb_trans s1 s2 s3 :
  String.leb s1 s2 = true -> String.leb s2 s3 = true -> String.leb s1 s3 = true.
Proof.
  unfold String.leb. revert s2 s3.
  induction s1 as [|c1 s1 IH]; intros [|c2 s2] [|c3 s3]; cbn;
    try reflexivity; try discriminate.
  destruct (Ascii.compare c1 c2) eqn:H12; try discriminate;
    destruct (Ascii.compare c2 c3) eqn:H23; try discriminate.
  - apply Ascii.compare_eq_iff in H12, H23. subst.
    unfold Ascii.compare. rewrite N.compare_refl. apply IH.
  - apply Ascii.compare_eq_iff in H12. subst. now rewrite H23.
  - apply Ascii.compare_eq_iff in H23. subst. now rewrite H12.
  - unfold Ascii.compare in *. rewrite N.compare_lt_iff in H12, H23.
    assert (Hlt : (N_of_ascii c1 < N_of_ascii c3)%N) by lia.
    apply N.compare_lt_iff in Hlt. now rewrite Hlt.
Qed.

Lemma js_toString_inj x y : js_toString x = js_toString y -> x = y.
Proof.
  unfold js_toString. intros Hs. apply DecimalZ.to_int_inj.
  assert (Hnn : forall z, Z.to_int z <> Decimal.Pos Decimal.Nil
                          /\ Z.to_int z <> Decimal.Neg Decimal.Nil).
  { intros [|p|p]; cbn; split; try discriminate;
      intros Hp; injection Hp as Hp;
      exact (DecimalPos.Unsigned.to_uint_nonnil p Hp). }
  destruct (Hnn x) as [Hx1 Hx2], (Hnn y) as [Hy1 Hy2].
  pose proof (NilZero.isi _ Hx1 Hx2) as Hix.
  pose proof (NilZero.isi _ Hy1 Hy2) as Hiy.
  rewrite Hs in Hix. congruence.
Qed.

Lemma js_sort_le_total x y : js_sort_le x y = true \/ js_sort_le y x = true.
Proof. apply String.leb_total. Qed.

Lemma js_sort_le_trans x y z :
  js_sort_le x y = true -> js_sort_le y z = true -> js_sort_le x z = true.
Proof. apply string_leb_trans. Qed.

Lemma js_sort_le_antisym x y :
  js_sort_le x y = true -> js_sort_le y x = true -> x = y.
Proof.
  intros Hxy Hyx. apply js_toString_inj. now apply String.leb_antisym.
Qed.

(** [sort()] after [Array.from(set)] does not depend on the order in which
    the set was filled. *)
Lemma js_sort_perm_eq l1 l2 : l1 ≡ₚ l2 -> js_sort l1 = js_sort l2.
Proof.
  apply sort_by_unique.
  - exact js_sort_le_total.
  - exact js_sort_le_trans.
  - exact js_sort_le_antisym.
Qed.

Lemma index_sort_perm_eq l1 l2 : l1 ≡ₚ l2 -> index_sort l1 = index_sort l2.
Proof.
  apply sort_by_unique; intros; lia.
Qed.

Lemma index_sort_sorted l : Sorted Z.le (index_sort l).
Proof.
  pose proof (sort_by_sorted Z.leb ltac:(intros; lia) l) as Hs.
  unfold index_sort. revert Hs. generalize (sort_by Z.leb l). intros l' Hs.
  induction Hs as [|x l'' Hs IH Hhd]; constructor; [exact IH|].
  destruct Hhd as [|y l3 Hxy]; constructor. unfold le_rel in Hxy. lia.
Qed.

(** On the numbers [-1 .. 9] the order of the strings is the order of the
    numbers. *)
Lemma js_sort_le_digit x y :
  -1 <= x <= 9 -> -1 <= y <= 9 -> js_sort_le x y = (x <=? y).
Proof.
  intros Hx Hy.
  assert (Ex : x = -1 \/ x = 0 \/ x = 1 \/ x = 2 \/ x = 3 \/ x = 4 \/ x = 5
               \/ x = 6 \/ x = 7 \/ x = 8 \/ x = 9) by lia.
  assert (Ey : y = -1 \/ y = 0 \/ y = 1 \/ y = 2 \/ y = 3 \/ y = 4 \/ y = 5
               \/ y = 6 \/ y = 7 \/ y = 8 \/ y = 9) by lia.
  clear Hx Hy.
  repeat (destruct Ex as [->|Ex]); try subst x;
    repeat (destruct Ey as [->|Ey]); try subst y; reflexivity.
Qed.

Lemma js_sort_digits l :
  Forall (fun x => -1 <= x <= 9) l -> js_sort l = index_sort l.
Proof.
  apply (sort_by_ext js_sort_le Z.leb (fun x => -1 <= x <= 9)).
  intros a b. apply js_sort_le_digit.
Qed.

(** ** The selection set *)

Lemma JSSet_has_In s x : JSSet.has s x = true <-> In x s.
Proof.
  unfold JSSet.has. rewrite existsb_exists. split.
  - intros (y & Hy & Heq). apply Z.eqb_eq in Heq. now subst.
  - intros Hx. exists x. split; [exact Hx | apply Z.eqb_refl].
Qed.

Lemma JSSet_has_false s x : JSSet.has s x = false <-> ~ In x s.
Proof.
  rewrite <- JSSet_has_In. destruct (JSSet.has s x); split; congruence.
Qed.

Lemma JSSet_delete_In s x y : In y (JSSet.delete s x) <-> In y s /\ y <> x.
Proof.
  unfold JSSet.delete. rewrite filter_In, negb_true_iff, Z.eqb_neq. reflexivity.
Qed.

Lemma JSSet_add_In s x y : In y (JSSet.add s x) <-> In y s \/ y = x.
Proof.
  unfold JSSet.add. destruct (JSSet.has s x) eqn:Hx.
  - apply JSSet_has_In in Hx. split; [now left | intros [H| ->]; assumption].
  - rewrite in_app_iff. cbn. intuition congruence.
Qed.

Lemma JSSet_delete_notin s x : ~ In x s -> JSSet.delete s x = s.
Proof.
  intros Hx. unfold JSSet.delete. induction s as [|y s IH]; cbn; [reflexivity|].
  destruct (Z.eqb_spec y x) as [-> |Hne]; cbn.
  - exfalso. apply Hx. now left.
  - f_equal. apply IH. intros Hin. apply Hx. now right.
Qed.

Lemma JSSet_delete_app s1 s2 x :
  JSSet.delete (s1 ++ s2)%list x = (JSSet.delete s1 x ++ JSSet.delete s2 x)%list.
Proof. unfold JSSet.delete. apply List.filter_app. Qed.

Lemma JSSet_delete_NoDup s x : NoDup s -> NoDup (JSSet.delete s x).
Proof.
  intros Hs. unfold JSSet.delete. apply NoDup_ListNoDup.
  apply List.NoDup_filter. now apply NoDup_ListNoDup.
Qed.

Lemma JSSet_add_NoDup s x : NoDup s -> NoDup (JSSet.add s x).
Proof.
  intros Hs. unfold JSSet.add. destruct (JSSet.has s x) eqn:Hx; [exact Hs|].
  apply JSSet_has_false in Hx. apply NoDup_app. repeat split.
  - exact Hs.
  - intros y Hy Hin. apply list_elem_of_In in Hy.
    apply list_elem_of_In in Hin. cbn in Hin.
    destruct Hin as [-> |[]]. contradiction.
  - apply NoDup_singleton.
Qed.

Lemma toggle_NoDup s i : NoDup s -> NoDup (toggle s i).
Proof.
  intros Hs. unfold toggle.
  destruct (JSSet.has s i); [now apply JSSet_delete_NoDup | now apply JSSet_add_NoDup].
Qed.

(** Membership after a toggle: flipped at the index, kept elsewhere. *)
Lemma toggle_has s i x :
  JSSet.has (toggle s i) x = if x =? i then negb (JSSet.has s i) else JSSet.has s x.
Proof.
  unfold toggle. destruct (JSSet.has s i) eqn:Hi.
  - destruct (Z.eqb_spec x i) as [-> |Hne]; cbn.
    + apply JSSet_has_false. rewrite JSSet_delete_In. tauto.
    + destruct (JSSet.has s x) eqn:Hx.
      * apply JSSet_has_In. apply JSSet_delete_In.
        apply JSSet_has_In in Hx. tauto.
      * apply JSSet_has_false. rewrite JSSet_delete_In.
        apply JSSet_has_false in Hx. tauto.
  - destruct (Z.eqb_spec x i) as [-> |Hne]; cbn.
    + apply JSSet_has_In. apply JSSet_add_In. now right.
    + destruct (JSSet.has s x) eqn:Hx.
      * apply JSSet_has_In. apply JSSet_add_In.
        apply JSSet_has_In in Hx. tauto.
      * apply JSSet_has_false. rewrite JSSet_add_In.
        apply JSSet_has_false in Hx. tauto.
Qed.

Lemma toggle_toggle_has s i x :
  JSSet.has (toggle (toggle s i) i) x = JSSet.has s x.
Proof.
  rewrite !toggle_has. destruct (Z.eqb_spec x i) as [-> |Hne]; [|reflexivity].
  rewrite Z.eqb_refl. apply negb_involutive.
Qed.

(** Two toggles of an index that was not selected give back the very same
    set; of an index that was selected, the same elements, the index now
    being the one added last. *)
Lemma toggle_toggle_unselected s i :
  JSSet.has s i = false -> toggle (toggle s i) i = s.
Proof.
  intros Hi. unfold toggle at 2. rewrite Hi.
  unfold toggle. assert (Hin : JSSet.has (JSSet.add s i) i = true).
  { apply JSSet_has_In, JSSet_add_In. now right. }
  rewrite Hin. unfold JSSet.add. rewrite Hi.
  rewrite JSSet_delete_app. apply JSSet_has_false in Hi.
  rewrite (JSSet_delete_notin s i Hi). cbn. rewrite Z.eqb_refl. cbn.
  apply app_nil_r.
Qed.

Lemma toggle_toggle_perm s i : NoDup s -> toggle (toggle s i) i ≡ₚ s.
Proof.
  intros Hs. apply NoDup_Permutation.
  - now do 2 apply toggle_NoDup.
  - exact Hs.
  - intros x. rewrite !list_elem_of_In, <- !JSSet_has_In.
    now rewrite toggle_toggle_has.
Qed.

(** ** Multi-select *)

Lemma handleCheckbox_up choices st ev :
  key_is ev "up" = true ->
  handleCheckbox_key choices st ev
  = Continue (mkCheckbox (wrap_up (js_length choices) (cb_currentIndex st))
                         (cb_selectedItems st)).
Proof. intros Hk. unfold handleCheckbox_key. now rewrite Hk. Qed.

Lemma handleCheckbox_down choices st ev :
  key_is ev "down" = true ->
  handleCheckbox_key choices st ev
  = Continue (mkCheckbox (wrap_down (js_length choices) (cb_currentIndex st))
                         (cb_selectedItems st)).
Proof. intros Hk. unfold handleCheckbox_key. key_cases. reflexivity. Qed.

Lemma handleCheckbox_space choices st ev :
  key_is ev "space" = true ->
  handleCheckbox_key choices st ev
  = Continue (mkCheckbox (cb_currentIndex st)
                         (toggle (cb_selectedItems st) (cb_currentIndex st))).
Proof. intros Hk. unfold handleCheckbox_key. key_cases. reflexivity. Qed.

Lemma handleCheckbox_return choices st ev :
  key_is ev "return" = true ->
  handleCheckbox_key choices st ev
  = Resolve (map (fun index => js_index_or_empty choices index)
                 (js_sort (cb_selectedItems st))).
Proof. intros Hk. unfold handleCheckbox_key. key_cases. reflexivity. Qed.

(** C10. The toggle key is an involution on the selection set. After a
    first press at an index, a second press at the same index, the cursor
    being back there with no toggle in between, leaves a set with exactly
    the members it had before, for every set and every index; the elements
    are the same ones, once each, and the confirm key resolves with the
    same labels as before the two presses. *)
Theorem C10_toggle_involution (choices : list string)
    (st st1 st1' st2 : CheckboxState) (space : KeyPress) :
  key_is space "space" = true ->
  handleCheckbox_key choices st space = Continue st1 ->
  cb_selectedItems st1' = cb_selectedItems st1 ->
  cb_currentIndex st1' = cb_currentIndex st ->
  handleCheckbox_key choices st1' space = Continue st2 ->
  cb_currentIndex st2 = cb_currentIndex st
  /\ (forall x, JSSet.has (cb_selectedItems st2) x
                = JSSet.has (cb_selectedItems st) x)
  /\ (JSSet.has (cb_selectedItems st) (cb_currentIndex st) = false ->
      cb_selectedItems st2 = cb_selectedItems st)
  /\ (NoDup (cb_selectedItems st) ->
      NoDup (cb_selectedItems st2)
      /\ cb_selectedItems st2 ≡ₚ cb_selectedItems st
      /\ forall confirm, key_is confirm "return" = true ->
           handleCheckbox_key choices st2 confirm
           = handleCheckbox_key choices st confirm).
Proof.
  intros Hk H1 Hsel Hidx H2.
  rewrite handleCheckbox_space in H1 by exact Hk. injection H1 as <-.
  rewrite handleCheckbox_space in H2 by exact Hk. injection H2 as <-.
  cbn [cb_currentIndex cb_selectedItems] in *. rewrite Hsel, Hidx.
  split; [reflexivity | split; [|split]].
  - intros x. apply toggle_toggle_has.
  - apply toggle_toggle_unselected.
  - intros Hnd. split; [now do 2 apply toggle_NoDup | split].
    + now apply toggle_toggle_perm.
    + intros confirm Hc. rewrite !handleCheckbox_return by exact Hc.
      cbn [cb_selectedItems].
      now rewrite (js_sort_perm_eq _ _ (toggle_toggle_perm _ _ Hnd)).
Qed.

Lemma C10_toggle_involution_witness :
  key_is KeySpace "space" = true
  /\ handleCheckbox_key ["A"; "B"; "C"] (mkCheckbox 1 [2; 1; 0]) KeySpace
     = Continue (mkCheckbox 1 [2; 0])
  /\ handleCheckbox_key ["A"; "B"; "C"] (mkCheckbox 1 [2; 0]) KeySpace
     = Continue (mkCheckbox 1 [2; 0; 1])
  /\ (forall x, JSSet.has [2; 0; 1] x = JSSet.has [2; 1; 0] x).
Proof.
  split; [reflexivity | split; [reflexivity | split; [reflexivity|]]].
  exact (proj1 (proj2 (C10_toggle_involution ["A"; "B"; "C"]
                         (mkCheckbox 1 [2; 1; 0]) (mkCheckbox 1 [2; 0])
                         (mkCheckbox 1 [2; 0]) (mkCheckbox 1 [2; 0; 1])
                         KeySpace eq_refl eq_refl eq_refl eq_refl eq_refl))).
Defined.

Lemma toggle_Forall (P : Z -> Prop) s i :
  P i -> Forall P s -> Forall P (toggle s i).
Proof.
  intros Hi Hs. rewrite List.Forall_forall in *. intros x Hx.
  apply JSSet_has_In in Hx. rewrite toggle_has in Hx.
  destruct (Z.eqb_spec x i) as [Heq|Hne]; [now rewrite Heq|].
  apply Hs. now apply JSSet_has_In.
Qed.

Lemma handleCheckbox_key_inv choices st ev st' :
  checkbox_inv (js_length choices) st ->
  handleCheckbox_key choices st ev = Continue st' ->
  checkbox_inv (js_length choices) st'.
Proof.
  intros (Hi & Hs & Hnd) Hstep. unfold handleCheckbox_key in Hstep.
  assert (Hn : 0 <= js_length choices) by (unfold js_length; lia).
  destruct (key_is ev "up").
  { injection Hstep as <-. repeat split; cbn; try assumption;
      destruct (Z.ltb_spec 0 (cb_currentIndex st)); lia. }
  destruct (key_is ev "down").
  { injection Hstep as <-. repeat split; cbn; try assumption;
      destruct (Z.ltb_spec (cb_currentIndex st) (js_length choices - 1)); lia. }
  destruct (key_is ev "space").
  { injection Hstep as <-. repeat split; cbn; try lia.
    - now apply (toggle_Forall _ _ _ Hi Hs).
    - now apply toggle_NoDup. }
  destruct (key_is ev "return"); [discriminate|].
  injection Hstep as <-. repeat split; try assumption; lia.
Qed.

Lemma run_checkbox_inv choices st evs st' :
  checkbox_inv (js_length choices) st ->
  run_keys (handleCheckbox_key choices) st evs = Pending st' ->
  checkbox_inv (js_length choices) st'.
Proof.
  revert st. induction evs as [|ev evs IH]; intros st Hinv Hrun; cbn in Hrun.
  - now injection Hrun as <-.
  - destruct (key_ctrl ev && key_is ev "c"); [discriminate|].
    destruct (handleCheckbox_key choices st ev) as [st1|r] eqn:Hstep;
      [|discriminate].
    eapply IH; [|exact Hrun]. eapply handleCheckbox_key_inv; eassumption.
Qed.

Lemma handleCheckbox_inv choices evs st :
  handleCheckbox choices evs = Pending st ->
  checkbox_inv (js_length (choices_or_empty choices)) st.
Proof.
  apply run_checkbox_inv. repeat split; cbn; try lia; constructor.
Qed.

(** With at most ten choices every index has one digit, and the confirm key
    does resolve with the selected labels by ascending index, in whatever
    order they were toggled. *)
Theorem handleCheckbox_ascending_upto_ten (choices : option (list string))
    (evs : list KeyPress) (st : CheckboxState) (confirm : KeyPress) :
  js_length (choices_or_empty choices) <= 10 ->
  key_is confirm "return" = true ->
  handleCheckbox choices evs = Pending st ->
  handleCheckbox choices (evs ++ [confirm])%list
  = Resolved (selected_labels_ascending (choices_or_empty choices)
                (cb_selectedItems st)).
Proof.
  intros Hn Hc Hrun. pose proof (handleCheckbox_inv _ _ _ Hrun) as (_ & Hs & _).
  unfold handleCheckbox in *. rewrite (run_keys_app _ _ _ _ _ Hrun).
  cbn [run_keys]. rewrite (not_interrupt confirm "return" Hc) by discriminate.
  rewrite handleCheckbox_return by exact Hc.
  unfold selected_labels_ascending, JSSet.to_array.
  rewrite js_sort_digits; [reflexivity|].
  eapply List.Forall_impl; [|exact Hs]. cbn. intros x Hx. lia.
Qed.

(** C1. Checked at eleven choices: after the third and the eleventh entry
    were toggled the selection set is [{2, 10}], and the confirm key
    resolves with the label of index 10 before the label of index 2,
    because [sort()] compares the indices as strings; by ascending index
    the result would be the other way round. *)
Theorem C1_checkbox_order_at_eleven :
  handleCheckbox (Some eleven_choices) select_third_and_eleventh
  = Pending (mkCheckbox 10 [2; 10])
  /\ handleCheckbox (Some eleven_choices)
       (select_third_and_eleventh ++ [KeyReturn])%list
     = Resolved ["c10"; "c2"]
  /\ selected_labels_ascending eleven_choices [2; 10] = ["c2"; "c10"]
  /\ handleCheckbox (Some eleven_choices)
       (select_third_and_eleventh ++ [KeyReturn])%list
     <> Resolved (selected_labels_ascending eleven_choices [2; 10]).
Proof.
  split; [|split; [|split]]; try (vm_compute; reflexivity).
  vm_compute. discriminate.
Qed.

(** ** The file helpers *)

Section SessionFacts.
Context {FS : Type} `{FileSystem FS}.
Implicit Types (w : World FS) (p : string).

Lemma getDirectories_eq p w :
  getDirectories p w
  = (w, match readdirSync (fs w) p with
        | Returned dirents =>
            Returned (map dirent_name (List.filter isDirectory dirents))
        | Thrown e => Thrown e
        end).
Proof.
  unfold getDirectories, bind, io_readdirSync, ret.
  destruct (readdirSync (fs w) p); reflexivity.
Qed.

(** A listing reads the file system and leaves the world as it is. *)
Lemma getDirectories_world p w : fst (getDirectories p w) = w.
Proof. now rewrite getDirectories_eq. Qed.

(** The folder helper lets the error of [mkdirSync] through. *)
Lemma makeFolder_throws currentPath_ folderName w fs' e :
  existsSync (fs w) (Path.join currentPath_ folderName) = false ->
  mkdirSync (fs w) (Path.join currentPath_ folderName) = (fs', Thrown e) ->
  makeFolder currentPath_ folderName w = (mkWorld fs' (errors w), Thrown e).
Proof.
  intros Hex Hmk. unfold makeFolder, bind, io_existsSync, io_mkdirSync.
  now rewrite Hex, Hmk.
Qed.

(** The template helper returns, whatever the file system answers. *)
Lemma makeTemplate_returns dir file_name code w :
  exists w', makeTemplate dir file_name code w = (w', Returned tt).
Proof.
  unfold makeTemplate, bind, try_catch, io_existsSync, io_writeFileSync,
    logError, ret.
  destruct (existsSync (fs w) (Path.join dir file_name)); [eauto|].
  destruct (writeFileSync (fs w) (Path.join dir file_name) code) as [fs' [[]|e]];
    eauto.
Qed.

(** So does the folder creation of the browser, which wraps the same
    [mkdirSync] in [try] and [catch]. *)
Lemma createNewFolder_named_returns currentPath_ folderName w :
  exists w' r, createNewFolder_named currentPath_ folderName w = (w', Returned r).
Proof.
  unfold createNewFolder_named, bind, try_catch, io_existsSync, io_mkdirSync,
    logError, ret.
  destruct (String.eqb folderName EmptyString); [eauto|].
  destruct (existsSync (fs w) (Path.join currentPath_ folderName)); [eauto|].
  destruct (mkdirSync (fs w) (Path.join currentPath_ folderName))
    as [fs' [[]|e]]; eauto.
Qed.

(** C8. [makeTemplate] never overwrites: when something exists at the
    joined target path the helper reports the error and returns, and the
    file system it leaves is the one it found, so the existing file has the
    content it had. *)
Theorem C8_makeTemplate_no_clobber (w : World FS) (dir file_name code : string) :
  existsSync (fs w) (Path.join dir file_name) = true ->
  makeTemplate dir file_name code w
  = (mkWorld (fs w)
       (errors w ++ [String.append "[Snpy-Error] File already exists: "
                       (Path.join dir file_name)])%list,
     Returned tt)
  /\ fs (fst (makeTemplate dir file_name code w)) = fs w.
Proof.
  intros Hex.
  assert (Heq : makeTemplate dir file_name code w
    = (mkWorld (fs w)
         (errors w ++ [String.append "[Snpy-Error] File already exists: "
                         (Path.join dir file_name)])%list,
       Returned tt)).
  { unfold makeTemplate, bind, io_existsSync, logError, ret. now rewrite Hex. }
  split; [exact Heq | now rewrite Heq].
Qed.

End SessionFacts.

Lemma C8_makeTemplate_no_clobber_witness :
  existsSync (fs sample_world) (Path.join "." "Component.ts") = true
  /\ fs (fst (makeTemplate "." "Component.ts" "<other/>" sample_world))
     = MemFS.sample
  /\ MemFS.sample !! "Component.ts" = Some (MemFS.File "<template/>").
Proof.
  split; [reflexivity | split; [|reflexivity]].
  exact (proj2 (C8_makeTemplate_no_clobber sample_world "." "Component.ts"
                  "<other/>" eq_refl)).
Defined.

(** C2. Checked in a working directory that holds nothing: the folder
    helper asked for [missing/child] throws the [ENOENT] of [mkdirSync], the
    listing of [missing] throws the one of [readdirSync], and a directory
    prompt started there throws it from its first render. On the same file
    system the folder creation of the browser and the template helper catch
    the error and report it. *)
Theorem C2_errors_escape :
  makeFolder "missing" "child" empty_world
  = (empty_world, Thrown (ErrnoException "ENOENT"))
  /\ getDirectories "missing" empty_world
     = (empty_world, Thrown (ErrnoException "ENOENT"))
  /\ handleDirectory (Some "missing") [] empty_world
     = (empty_world, DirThrown (ErrnoException "ENOENT"))
  /\ snd (createNewFolder_named "missing" "child" empty_world)
     = Returned ("missing", false)
  /\ makeTemplate "missing" "child.ts" "<template/>" empty_world
     = (mkWorld MemFS.empty_cwd
          ["[Snpy-Error] Failed to write file: missing/child.ts"],
        Returned tt).
Proof. repeat split; vm_compute; reflexivity. Qed.

(** ** The directory browser *)

Section DirectoryFacts.
Context {FS : Type} `{FileSystem FS}.
Variable basePath : option string.
Implicit Types (w : World FS) (p : string) (choices : list string).

Lemma getChoices_eq p w :
  getChoices basePath p w
  = (w, match readdirSync (fs w) p with
        | Returned dirents =>
            Returned
              (([SELECT_THIS_PATH]
                ++ (if negb (String.eqb p (basePath_or_dot basePath))
                    then [SELECT_BACK_PATH] else []))
               ++ map dirent_name (List.filter isDirectory dirents))%list
        | Thrown e => Thrown e
        end).
Proof.
  unfold getChoices, bind. rewrite getDirectories_eq.
  destruct (readdirSync (fs w) p); [|reflexivity].
  unfold ret. destruct (negb (String.eqb p (basePath_or_dot basePath)));
    reflexivity.
Qed.

(** The choices in terms of the listing. *)
Lemma getChoices_of_listing p w dirs :
  getDirectories p w = (w, Returned dirs) ->
  getChoices basePath p w
  = (w, Returned
          (if String.eqb p (basePath_or_dot basePath)
           then SELECT_THIS_PATH :: dirs
           else SELECT_THIS_PATH :: SELECT_BACK_PATH :: dirs)).
Proof.
  intros Hd. unfold getChoices, bind, ret. rewrite Hd.
  destruct (String.eqb p (basePath_or_dot basePath)); reflexivity.
Qed.

Lemma render_returns p i w choices :
  getChoices basePath p w = (w, Returned choices) ->
  render basePath p i w = (w, Returned tt).
Proof. intros Hc. unfold render, bind, ret. now rewrite Hc. Qed.

Lemma handleDirectory_up p i w choices ev :
  getChoices basePath p w = (w, Returned choices) ->
  key_is ev "up" = true ->
  handleDirectory_key basePath (mkDirectory p i Browsing) ev w
  = (w, Returned (Continue
          (mkDirectory p (wrap_up (js_length choices) i) Browsing))).
Proof.
  intros Hc Hk. cbn [handleDirectory_key mode]. unfold keyPressHandler, bind.
  cbn [currentPath currentIndex]. rewrite Hc, Hk.
  now rewrite (render_returns _ _ _ _ Hc).
Qed.

Lemma handleDirectory_down p i w choices ev :
  getChoices basePath p w = (w, Returned choices) ->
  key_is ev "down" = true ->
  handleDirectory_key basePath (mkDirectory p i Browsing) ev w
  = (w, Returned (Continue
          (mkDirectory p (wrap_down (js_length choices) i) Browsing))).
Proof.
  intros Hc Hk. cbn [handleDirectory_key mode]. unfold keyPressHandler, bind.
  cbn [currentPath currentIndex]. rewrite Hc. key_cases.
  now rewrite (render_returns _ _ _ _ Hc).
Qed.

(** Confirm on the marker that selects the current path. *)
Lemma handleDirectory_select p i w choices ev :
  getChoices basePath p w = (w, Returned choices) ->
  key_is ev "return" = true ->
  js_index choices i = Some SELECT_THIS_PATH ->
  handleDirectory_key basePath (mkDirectory p i Browsing) ev w
  = (w, Returned (Resolve p)).
Proof.
  intros Hc Hk Hsel. cbn [handleDirectory_key mode].
  unfold keyPressHandler, bind. cbn [currentPath currentIndex].
  rewrite Hc. key_cases. now rewrite Hsel.
Qed.

(** Confirm on the marker that goes up. *)
Lemma handleDirectory_back p i w choices choices' ev :
  getChoices basePath p w = (w, Returned choices) ->
  key_is ev "return" = true ->
  js_index choices i = Some SELECT_BACK_PATH ->
  getChoices basePath (Path.dirname p) w = (w, Returned choices') ->
  handleDirectory_key basePath (mkDirectory p i Browsing) ev w
  = (w, Returned (Continue (mkDirectory (Path.dirname p) 0 Browsing))).
Proof.
  intros Hc Hk Hsel Hc'. cbn [handleDirectory_key mode].
  unfold keyPressHandler, bind. cbn [currentPath currentIndex].
  rewrite Hc. key_cases. rewrite Hsel. cbn.
  now rewrite (render_returns _ _ _ _ Hc').
Qed.

(** Confirm on a subdirectory. *)
Lemma handleDirectory_enter p i w choices choices' ev selected :
  getChoices basePath p w = (w, Returned choices) ->
  key_is ev "return" = true ->
  js_index choices i = Some selected ->
  selected <> SELECT_THIS_PATH -> selected <> SELECT_BACK_PATH ->
  getChoices basePath (Path.join p selected) w = (w, Returned choices') ->
  handleDirectory_key basePath (mkDirectory p i Browsing) ev w
  = (w, Returned (Continue (mkDirectory (Path.join p selected) 0 Browsing))).
Proof.
  intros Hc Hk Hsel Hn1 Hn2 Hc'. cbn [handleDirectory_key mode].
  unfold keyPressHandler, bind. cbn [currentPath currentIndex].
  rewrite Hc. key_cases. rewrite Hsel.
  apply String.eqb_neq in Hn1, Hn2. rewrite Hn1, Hn2.
  now rewrite (render_returns _ _ _ _ Hc').
Qed.

(** A listing that throws at the base path rejects the promise of the
    prompt: the first [render] is not guarded. *)
Lemma handleDirectory_listing_error evs w e :
  readdirSync (fs w) (basePath_or_dot basePath) = Thrown e ->
  handleDirectory basePath evs w = (w, DirThrown e).
Proof.
  intros Hls. unfold handleDirectory, render, bind.
  cbn [currentPath currentIndex]. rewrite getChoices_eq, Hls. reflexivity.
Qed.

(** A listing that throws under the key handler is thrown by the handler. *)
Lemma keyPressHandler_listing_error st ev w e :
  readdirSync (fs w) (currentPath st) = Thrown e ->
  keyPressHandler basePath st ev w = (w, Thrown e).
Proof.
  intros Hls. unfold keyPressHandler, bind. rewrite getChoices_eq, Hls.
  reflexivity.
Qed.

Lemma run_directory_app st evs1 evs2 w st' w' :
  run_directory basePath st evs1 w = (w', DirPending st') ->
  run_directory basePath st (evs1 ++ evs2)%list w
  = run_directory basePath st' evs2 w'.
Proof.
  revert st w. induction evs1 as [|ev evs1 IH]; intros st w Hrun; cbn in *.
  - now injection Hrun as <- <-.
  - destruct (key_ctrl ev && key_is ev "c"); [discriminate|].
    destruct (handleDirectory_key basePath st ev w) as [w1 [[st1|r]|e]];
      [auto | discriminate | discriminate].
Qed.

(** The down key pressed [k] times, the listing staying as it is. *)
Lemma run_directory_downs p w choices ev k i :
  getChoices basePath p w = (w, Returned choices) ->
  key_is ev "down" = true ->
  run_directory basePath (mkDirectory p i Browsing) (repeat ev k) w
  = (w, DirPending
          (mkDirectory p (Nat.iter k (wrap_down (js_length choices)) i)
             Browsing)).
Proof.
  intros Hc Hk. revert i. induction k as [|k IH]; intros i.
  - reflexivity.
  - cbn [repeat run_directory].
    rewrite (not_interrupt ev "down" Hk) by discriminate.
    rewrite (handleDirectory_down _ _ _ _ _ Hc Hk), IH.
    now rewrite Nat.iter_succ_r.
Qed.

End DirectoryFacts.

(** Down pressed [k] times from the top of a list with more than [k]
    entries stops at entry [k]. *)
Lemma iter_wrap_down_from_top n k :
  Z.of_nat k < n -> Nat.iter k (wrap_down n) 0 = Z.of_nat k.
Proof.
  intros Hk. rewrite iter_wrap_down by lia. apply Z.mod_small. lia.
Qed.

(** C6. Over a choice list that is not empty the cursor wraps around: up
    at index 0 goes to the last index, down at the last index goes to 0, and
    down pressed as many times as there are entries comes back to the index
    it started from. This holds for the cursor of the single and numbered
    select, of the multi-select and of the directory browser, the listing of
    the browser being the same at every key. *)
Theorem C6_cursor_wraparound {FS : Type} `{FileSystem FS}
    (choices : list string) (up down : KeyPress) :
  choices <> [] ->
  key_is up "up" = true ->
  key_is down "down" = true ->
  let n := js_length choices in
  (handleSelectable_key choices 0 up = Continue (n - 1)
   /\ handleSelectable_key choices (n - 1) down = Continue 0
   /\ forall i, 0 <= i < n ->
        run_keys (handleSelectable_key choices) i
          (repeat down (List.length choices)) = Pending i)
  /\ (forall selectedItems,
        handleCheckbox_key choices (mkCheckbox 0 selectedItems) up
        = Continue (mkCheckbox (n - 1) selectedItems)
        /\ handleCheckbox_key choices (mkCheckbox (n - 1) selectedItems) down
           = Continue (mkCheckbox 0 selectedItems)
        /\ forall i, 0 <= i < n ->
             run_keys (handleCheckbox_key choices) (mkCheckbox i selectedItems)
               (repeat down (List.length choices))
             = Pending (mkCheckbox i selectedItems))
  /\ (forall (basePath : option string) (p : string) (w : World FS),
        getChoices basePath p w = (w, Returned choices) ->
        handleDirectory_key basePath (mkDirectory p 0 Browsing) up w
        = (w, Returned (Continue (mkDirectory p (n - 1) Browsing)))
        /\ handleDirectory_key basePath (mkDirectory p (n - 1) Browsing) down w
           = (w, Returned (Continue (mkDirectory p 0 Browsing)))
        /\ forall i, 0 <= i < n ->
             run_directory basePath (mkDirectory p i Browsing)
               (repeat down (List.length choices)) w
             = (w, DirPending (mkDirectory p i Browsing))).
Proof.
  intros Hne Hu Hd. cbv zeta.
  assert (Hn : 0 < js_length choices).
  { unfold js_length. destruct choices; [contradiction | cbn; lia]. }
  assert (Hup : wrap_up (js_length choices) 0 = (js_length choices) - 1) by reflexivity.
  assert (Hdown : wrap_down (js_length choices) ((js_length choices) - 1) = 0).
  { unfold wrap_down. now rewrite Z.ltb_irrefl. }
  assert (Hnc := not_interrupt down "down" Hd ltac:(discriminate)).
  assert (Hturn : forall i, 0 <= i < (js_length choices) ->
             Nat.iter (List.length choices) (wrap_down (js_length choices)) i = i).
  { intros i Hi. apply wrap_down_full_turn. exact Hi. }
  split; [|split].
  - split; [|split].
    + now rewrite handleSelectable_up.
    + rewrite handleSelectable_down by exact Hd. now rewrite Hdown.
    + intros i Hi.
      rewrite (run_keys_repeat _ (wrap_down (js_length choices)) down _ i Hnc).
      * now rewrite Hturn.
      * intros i0. now apply handleSelectable_down.
  - intros selectedItems. split; [|split].
    + now rewrite handleCheckbox_up.
    + rewrite handleCheckbox_down by exact Hd. cbn. now rewrite Hdown.
    + intros i Hi.
      rewrite (run_keys_repeat _
                 (fun st => mkCheckbox (wrap_down (js_length choices) (cb_currentIndex st))
                                       (cb_selectedItems st))
                 down _ _ Hnc).
      * f_equal.
        assert (Hit : forall k,
          Nat.iter k (fun st => mkCheckbox (wrap_down (js_length choices) (cb_currentIndex st))
                                           (cb_selectedItems st))
            (mkCheckbox i selectedItems)
          = mkCheckbox (Nat.iter k (wrap_down (js_length choices)) i) selectedItems).
        { induction k as [|k IH]; [reflexivity|].
          now rewrite !Nat.iter_succ, IH. }
        now rewrite Hit, Hturn.
      * intros st. now apply handleCheckbox_down.
  - intros basePath p w Hc. split; [|split].
    + now rewrite (handleDirectory_up _ _ _ _ _ _ Hc Hu).
    + rewrite (handleDirectory_down _ _ _ _ _ _ Hc Hd). now rewrite Hdown.
    + intros i Hi. rewrite (run_directory_downs _ _ _ _ _ _ _ Hc Hd).
      now rewrite Hturn.
Qed.

Lemma C6_cursor_wraparound_witness :
  ([SELECT_THIS_PATH; "foo"] <> []
   /\ key_is KeyUp "up" = true /\ key_is KeyDown "down" = true)
  /\ getChoices (Some ".") "." sample_world
     = (sample_world, Returned [SELECT_THIS_PATH; "foo"])
  /\ handleSelectable_key [SELECT_THIS_PATH; "foo"] 0 KeyUp = Continue 1
  /\ run_keys (handleSelectable_key [SELECT_THIS_PATH; "foo"]) 1
       [KeyDown; KeyDown] = Pending 1
  /\ run_directory (Some ".") (mkDirectory "." 1 Browsing) [KeyDown; KeyDown]
       sample_world
     = (sample_world, DirPending (mkDirectory "." 1 Browsing)).
Proof.
  pose proof (C6_cursor_wraparound [SELECT_THIS_PATH; "foo"] KeyUp KeyDown
                ltac:(discriminate) eq_refl eq_refl) as (Hs & _ & Hdir).
  assert (Hc : getChoices (Some ".") "." sample_world
               = (sample_world, Returned [SELECT_THIS_PATH; "foo"]))
    by (vm_compute; reflexivity).
  assert (Hi : 0 <= 1 < js_length [SELECT_THIS_PATH; "foo"])
    by (vm_compute; split; [discriminate | reflexivity]).
  split; [repeat split; discriminate | split; [exact Hc | split; [|split]]].
  - exact (proj1 Hs).
  - exact (proj2 (proj2 Hs) 1 Hi).
  - exact (proj2 (proj2 (Hdir (Some ".") "." sample_world Hc)) 1 Hi).
Defined.

(** *** Into a subdirectory and back *)

Section RoundTrip.
Context {FS : Type} `{FileSystem FS}.

(** From the base path into the subdirectory [name] and up again, for any
    base path and name that [path.join] and [path.dirname] take back and
    forth. *)
Lemma directory_descend_ascend (basePath : option string) (w : World FS)
    (name : string) (dirs dirs' : list string) (k : nat)
    (down confirm : KeyPress) :
  let base := basePath_or_dot basePath in
  let child := Path.join base name in
  key_is down "down" = true ->
  key_is confirm "return" = true ->
  name <> SELECT_THIS_PATH -> name <> SELECT_BACK_PATH ->
  child <> base -> Path.dirname child = base ->
  getDirectories base w = (w, Returned dirs) ->
  dirs !! k = Some name ->
  getDirectories child w = (w, Returned dirs') ->
  handleDirectory basePath (repeat down (Datatypes.S k) ++ [confirm])%list w
  = (w, DirPending (mkDirectory child 0 Browsing))
  /\ handleDirectory basePath
       (repeat down (Datatypes.S k) ++ [confirm; down; confirm])%list w
     = (w, DirPending (mkDirectory base 0 Browsing))
  /\ handleDirectory basePath
       (repeat down (Datatypes.S k) ++ [confirm; down; confirm; confirm])%list w
     = (w, DirResolved base).
Proof.
  intros base child Hd Hc Hn1 Hn2 Hne Hdir Hls Hk Hls'.
  assert (Hncd := not_interrupt down "down" Hd ltac:(discriminate)).
  assert (Hncc := not_interrupt confirm "return" Hc ltac:(discriminate)).
  (* the choices at the base path and in the subdirectory *)
  pose proof (getChoices_of_listing basePath base w dirs Hls) as Hch.
  fold base in Hch. rewrite String.eqb_refl in Hch.
  pose proof (getChoices_of_listing basePath child w dirs' Hls') as Hch'.
  fold base in Hch'. apply String.eqb_neq in Hne. rewrite Hne in Hch'.
  (* the cursor reaches the entry of the subdirectory *)
  assert (Hlen : Z.of_nat (Datatypes.S k) < js_length (SELECT_THIS_PATH :: dirs)).
  { apply lookup_lt_Some in Hk. unfold js_length. cbn [List.length]. lia. }
  assert (Hat : js_index (SELECT_THIS_PATH :: dirs) (Z.of_nat (Datatypes.S k))
                = Some name).
  { unfold js_index. destruct (Z.ltb_spec (Z.of_nat (Datatypes.S k)) 0); [lia|].
    rewrite Nat2Z.id. exact Hk. }
  assert (Hdowns :
    run_directory basePath (mkDirectory base 0 Browsing)
      (repeat down (Datatypes.S k)) w
    = (w, DirPending (mkDirectory base (Z.of_nat (Datatypes.S k)) Browsing))).
  { rewrite (run_directory_downs basePath _ _ _ _ _ _ Hch Hd).
    now rewrite iter_wrap_down_from_top. }
  (* the four keys that follow *)
  assert (Henter :
    handleDirectory_key basePath
      (mkDirectory base (Z.of_nat (Datatypes.S k)) Browsing) confirm w
    = (w, Returned (Continue (mkDirectory child 0 Browsing)))).
  { apply (handleDirectory_enter basePath _ _ _ _ _ _ _ Hch Hc Hat Hn1 Hn2 Hch'). }
  assert (Hdown1 :
    handleDirectory_key basePath (mkDirectory child 0 Browsing) down w
    = (w, Returned (Continue (mkDirectory child 1 Browsing)))).
  { rewrite (handleDirectory_down basePath _ _ _ _ _ Hch' Hd).
    unfold wrap_down, js_length. cbn [List.length].
    destruct (Z.ltb_spec 0 (Z.of_nat (Datatypes.S (Datatypes.S (List.length dirs'))) - 1));
      [reflexivity | lia]. }
  assert (Hback :
    handleDirectory_key basePath (mkDirectory child 1 Browsing) confirm w
    = (w, Returned (Continue (mkDirectory base 0 Browsing)))).
  { rewrite <- Hdir.
    apply (handleDirectory_back basePath _ _ _ _
             (SELECT_THIS_PATH :: dirs) _ Hch' Hc); [reflexivity|].
    rewrite Hdir. exact Hch. }
  assert (Hselect :
    handleDirectory_key basePath (mkDirectory base 0 Browsing) confirm w
    = (w, Returned (Resolve base))).
  { apply (handleDirectory_select basePath _ _ _ _ _ Hch Hc). reflexivity. }
  unfold handleDirectory. cbn [currentPath currentIndex]. fold base.
  rewrite (render_returns basePath _ _ _ _ Hch).
  rewrite !(run_directory_app basePath _ _ _ _ _ _ Hdowns).
  cbn [run_directory]. rewrite Hncc, Hncd, Henter, Hdown1, Hback, Hselect.
  repeat split.
Qed.

End RoundTrip.

(** C7. A directory prompt started with base path [.]: confirm on the
    entry of the subdirectory [foo], then confirm on the marker that goes
    up, then confirm on the marker that selects the current path, resolves
    with [.]. [path.join] turns [.] and [foo] into [foo], [path.dirname]
    turns [foo] back into [.]. *)
Theorem C7_directory_round_trip {FS : Type} `{FileSystem FS} (w : World FS)
    (dirs dirs' : list string) (k : nat) (down confirm : KeyPress) :
  key_is down "down" = true ->
  key_is confirm "return" = true ->
  getDirectories "." w = (w, Returned dirs) ->
  dirs !! k = Some "foo" ->
  getDirectories "foo" w = (w, Returned dirs') ->
  handleDirectory (Some ".") (repeat down (Datatypes.S k) ++ [confirm])%list w
  = (w, DirPending (mkDirectory "foo" 0 Browsing))
  /\ handleDirectory (Some ".")
       (repeat down (Datatypes.S k) ++ [confirm; down; confirm])%list w
     = (w, DirPending (mkDirectory "." 0 Browsing))
  /\ handleDirectory (Some ".")
       (repeat down (Datatypes.S k) ++ [confirm; down; confirm; confirm])%list w
     = (w, DirResolved ".").
Proof.
  intros Hd Hc Hls Hk Hls'.
  apply (directory_descend_ascend (Some ".") w "foo" dirs dirs' k down confirm
           Hd Hc); try discriminate; try reflexivity; assumption.
Qed.

Lemma C7_directory_round_trip_witness :
  (key_is KeyDown "down" = true /\ key_is KeyReturn "return" = true
   /\ getDirectories "." sample_world = (sample_world, Returned ["foo"])
   /\ ["foo"] !! 0%nat = Some "foo"
   /\ getDirectories "foo" sample_world = (sample_world, Returned ["bar"]))
  /\ handleDirectory (Some ".")
       [KeyDown; KeyReturn; KeyDown; KeyReturn; KeyReturn] sample_world
     = (sample_world, DirResolved ".").
Proof.
  assert (H1 : getDirectories "." sample_world
               = (sample_world, Returned ["foo"]))
    by (vm_compute; reflexivity).
  assert (H2 : getDirectories "foo" sample_world
               = (sample_world, Returned ["bar"]))
    by (vm_compute; reflexivity).
  split; [repeat split; assumption|].
  exact (proj2 (proj2 (C7_directory_round_trip sample_world ["foo"] ["bar"] 0
                         KeyDown KeyReturn eq_refl eq_refl H1 eq_refl H2))).
Defined.

(** * Further properties *)

(** ** The window, for every viewport size *)

Section WindowFacts.
Context {A : Type}.
Implicit Types (items : list A).

(** Where the window starts and ends, in closed form: the start follows the
    cursor at a distance of half a viewport, clamped to the list. *)
Lemma getVisibleRange_closed_form items currentIndex maxVisible :
  1 <= maxVisible ->
  0 <= currentIndex < js_length items ->
  start (getVisibleRange items currentIndex maxVisible)
  = Z.max 0 (Z.min (currentIndex - maxVisible / 2)
                   (js_length items - maxVisible))
  /\ end_ (getVisibleRange items currentIndex maxVisible)
     = start (getVisibleRange items currentIndex maxVisible)
       + Z.min (js_length items) maxVisible.
Proof.
  intros Hm Hi. unfold getVisibleRange. cbv zeta. cbn [start end_].
  assert (Hh : 0 <= maxVisible / 2) by (apply Z.div_pos; lia).
  assert (Hh2 : maxVisible / 2 < maxVisible) by (apply Z.div_lt; lia).
  set (h := maxVisible / 2) in *. set (n := js_length items) in *.
  repeat match goal with
         | |- context [?a =? ?b] => destruct (Z.eqb_spec a b)
         end; lia.
Qed.

(** The window around a cursor inside the list. *)
Lemma getVisibleRange_window items currentIndex maxVisible :
  1 <= maxVisible ->
  0 <= currentIndex < js_length items ->
  let r := getVisibleRange items currentIndex maxVisible in
  0 <= start r /\ start r <= currentIndex /\ currentIndex < end_ r
  /\ end_ r <= js_length items
  /\ end_ r - start r = Z.min (js_length items) maxVisible.
Proof.
  intros Hm Hi r.
  destruct (getVisibleRange_closed_form items currentIndex maxVisible Hm Hi)
    as [Hs He].
  fold r in Hs, He.
  assert (Hh : 0 <= maxVisible / 2) by (apply Z.div_pos; lia).
  assert (Hh2 : maxVisible / 2 < maxVisible) by (apply Z.div_lt; lia).
  lia.
Qed.

(** X1. For every viewport size of at least one row and every cursor inside
    the list, the window contains the cursor, lies inside the list and
    shows as many rows as fit: the smaller of the list length and the
    viewport size. *)
Theorem getVisibleRange_full_window items currentIndex maxVisible :
  1 <= maxVisible ->
  0 <= currentIndex < js_length items ->
  let r := getVisibleRange items currentIndex maxVisible in
  0 <= start r /\ start r <= currentIndex /\ currentIndex < end_ r
  /\ end_ r <= js_length items
  /\ end_ r - start r = Z.min (js_length items) maxVisible.
Proof.
  intros Hm Hi r.
  destruct (getVisibleRange_closed_form items currentIndex maxVisible Hm Hi)
    as [Hs He].
  fold r in Hs, He.
  assert (Hh : 0 <= maxVisible / 2) by (apply Z.div_pos; lia).
  assert (Hh2 : maxVisible / 2 < maxVisible) by (apply Z.div_lt; lia).
  lia.
Qed.

(** X2. The window slides with the cursor: when the cursor moves one entry
    down the list, the window stays or moves down by one entry, never
    more and never back. *)
Theorem getVisibleRange_slides items currentIndex maxVisible :
  1 <= maxVisible ->
  0 <= currentIndex -> currentIndex + 1 < js_length items ->
  let s0 := start (getVisibleRange items currentIndex maxVisible) in
  let s1 := start (getVisibleRange items (currentIndex + 1) maxVisible) in
  s1 = s0 \/ s1 = s0 + 1.
Proof.
  intros Hm H0 H1 s0 s1.
  destruct (getVisibleRange_closed_form items currentIndex maxVisible Hm
              ltac:(lia)) as [Hs0 _].
  destruct (getVisibleRange_closed_form items (currentIndex + 1) maxVisible Hm
              ltac:(lia)) as [Hs1 _].
  fold s0 in Hs0. fold s1 in Hs1. lia.
Qed.

(** X3. A list that fits the viewport is shown whole, without scroll
    marks, wherever the cursor is. *)
Theorem getVisibleRange_short_list items currentIndex maxVisible :
  1 <= maxVisible ->
  js_length items <= maxVisible ->
  0 <= currentIndex < js_length items ->
  getVisibleRange items currentIndex maxVisible
  = mkRange 0 (js_length items) false false.
Proof.
  intros Hm Hn Hi.
  destruct (getVisibleRange_closed_form items currentIndex maxVisible Hm Hi)
    as [Hs He].
  pose proof (getVisibleRange_indicators items currentIndex maxVisible)
    as [Ht Hb]. cbv zeta in Ht, Hb.
  assert (Hh : 0 <= maxVisible / 2) by (apply Z.div_pos; lia).
  destruct (getVisibleRange items currentIndex maxVisible)
    as [s e t b] eqn:Hr. cbn [start end_ showTop showBottom] in *.
  assert (s = 0) by lia. assert (e = js_length items) by lia. subst s e.
  rewrite Ht, Hb. f_equal; lia.
Qed.

End WindowFacts.

Lemma js_slice_length {A : Type} (a : list A) (s e : Z) :
  0 <= s <= e -> e <= js_length a ->
  js_length (js_slice a s e) = e - s.
Proof.
  intros Hs He. unfold js_slice, js_length in *.
  rewrite length_take, length_drop. lia.
Qed.

Lemma js_slice_lookup {A : Type} (a : list A) (s e i : Z) :
  0 <= s -> s <= i < e ->
  js_index (js_slice a s e) (i - s) = js_index a i.
Proof.
  intros Hs Hi. unfold js_slice, js_index.
  destruct (Z.ltb_spec (i - s) 0); [lia|]. destruct (Z.ltb_spec i 0); [lia|].
  rewrite lookup_take_lt by lia. rewrite lookup_drop. f_equal. lia.
Qed.

Lemma visibleChoices_length {A : Type} (items : list A) (currentIndex : Z) :
  0 <= currentIndex < js_length items ->
  js_length (visibleChoices items currentIndex)
  = Z.min (js_length items) MAX_VISIBLE_ITEMS.
Proof.
  intros Hi.
  pose proof (getVisibleRange_window items currentIndex MAX_VISIBLE_ITEMS
                ltac:(unfold MAX_VISIBLE_ITEMS; lia) Hi) as Hw.
  cbv zeta in Hw. unfold visibleChoices, getVisibleRange_default. cbv zeta.
  rewrite js_slice_length by lia. lia.
Qed.

(** X4. What [render] draws: as many rows as the window has, and the entry
    under the cursor is among them, at the row that is its distance from
    the start of the window. *)
Theorem visibleChoices_cursor_row {A : Type} (items : list A) (currentIndex : Z) :
  0 <= currentIndex < js_length items ->
  let r := getVisibleRange_default items currentIndex in
  js_length (visibleChoices items currentIndex)
  = Z.min (js_length items) MAX_VISIBLE_ITEMS
  /\ js_index (visibleChoices items currentIndex) (currentIndex - start r)
     = js_index items currentIndex.
Proof.
  intros Hi r.
  pose proof (getVisibleRange_window items currentIndex MAX_VISIBLE_ITEMS
                ltac:(unfold MAX_VISIBLE_ITEMS; lia) Hi) as Hw.
  cbv zeta in Hw. change (getVisibleRange items currentIndex MAX_VISIBLE_ITEMS)
    with r in Hw.
  unfold visibleChoices. cbv zeta. fold r. split.
  - rewrite js_slice_length by lia. lia.
  - apply js_slice_lookup; lia.
Qed.

Lemma getVisibleRange_full_window_witness :
  (1 <= 3 /\ 0 <= 11 < js_length twelve_items)
  /\ start (getVisibleRange twelve_items 11 3) = 9
  /\ end_ (getVisibleRange twelve_items 11 3)
     - start (getVisibleRange twelve_items 11 3)
     = Z.min (js_length twelve_items) 3.
Proof.
  assert (Hm : 1 <= 3) by lia.
  assert (Hi : 0 <= 11 < js_length twelve_items)
    by (vm_compute; split; [discriminate | reflexivity]).
  split; [split; assumption | split; [reflexivity|]].
  exact (proj2 (proj2 (proj2 (proj2
    (getVisibleRange_full_window twelve_items 11 3 Hm Hi))))).
Defined.

Lemma getVisibleRange_slides_witness :
  (1 <= 10 /\ 0 <= 5 /\ 5 + 1 < js_length twelve_items)
  /\ (start (getVisibleRange twelve_items (5 + 1) 10)
      = start (getVisibleRange twelve_items 5 10)
      \/ start (getVisibleRange twelve_items (5 + 1) 10)
         = start (getVisibleRange twelve_items 5 10) + 1).
Proof.
  assert (Hm : 1 <= 10) by lia. assert (H0 : 0 <= 5) by lia.
  assert (H1 : 5 + 1 < js_length twelve_items) by (vm_compute; reflexivity).
  split; [repeat split; assumption|].
  exact (getVisibleRange_slides twelve_items 5 10 Hm H0 H1).
Defined.

Lemma getVisibleRange_short_list_witness :
  (1 <= 10 /\ js_length ["a"; "b"; "c"] <= 10
   /\ 0 <= 2 < js_length ["a"; "b"; "c"])
  /\ getVisibleRange ["a"; "b"; "c"] 2 10 = mkRange 0 3 false false.
Proof.
  assert (Hm : 1 <= 10) by lia.
  assert (Hn : js_length ["a"; "b"; "c"] <= 10) by (vm_compute; discriminate).
  assert (Hi : 0 <= 2 < js_length ["a"; "b"; "c"])
    by (vm_compute; split; [discriminate | reflexivity]).
  split; [repeat split; assumption|].
  exact (getVisibleRange_short_list ["a"; "b"; "c"] 2 10 Hm Hn Hi).
Defined.

Lemma visibleChoices_cursor_row_witness :
  0 <= 11 < js_length twelve_items
  /\ js_length (visibleChoices twelve_items 11) = 10
  /\ js_index (visibleChoices twelve_items 11) 9 = Some "l".
Proof.
  assert (Hi : 0 <= 11 < js_length twelve_items)
    by (vm_compute; split; [discriminate | reflexivity]).
  split; [exact Hi|].
  exact (visibleChoices_cursor_row twelve_items 11 Hi).
Defined.

(** ** The cursor of the select prompts *)

Lemma wrap_down_range n i : 0 <= i < n -> 0 <= wrap_down n i < n.
Proof. intros Hi. unfold wrap_down. destruct (Z.ltb_spec i (n - 1)); lia. Qed.

Lemma wrap_up_range n i : 0 <= i < n -> 0 <= wrap_up n i < n.
Proof. intros Hi. unfold wrap_up. destruct (Z.ltb_spec 0 i); lia. Qed.

Lemma wrap_up_down n i : 0 <= i < n -> wrap_up n (wrap_down n i) = i.
Proof.
  intros Hi. unfold wrap_up, wrap_down.
  destruct (Z.ltb_spec i (n - 1)).
  - destruct (Z.ltb_spec 0 (i + 1)); lia.
  - cbn. lia.
Qed.

Lemma wrap_down_up n i : 0 <= i < n -> wrap_down n (wrap_up n i) = i.
Proof.
  intros Hi. unfold wrap_up, wrap_down.
  destruct (Z.ltb_spec 0 i).
  - destruct (Z.ltb_spec (i - 1) (n - 1)); lia.
  - rewrite Z.ltb_irrefl. lia.
Qed.

Lemma iter_wrap_down_range n k i :
  0 <= i < n -> 0 <= Nat.iter k (wrap_down n) i < n.
Proof.
  intros Hi. induction k as [|k IH]; [exact Hi|].
  rewrite Nat.iter_succ. now apply wrap_down_range.
Qed.

Lemma iter_wrap_up_down n k i :
  0 <= i < n -> Nat.iter k (wrap_up n) (Nat.iter k (wrap_down n) i) = i.
Proof.
  revert i. induction k as [|k IH]; intros i Hi; [reflexivity|].
  rewrite Nat.iter_succ_r, Nat.iter_succ.
  rewrite wrap_up_down by (now apply iter_wrap_down_range).
  now apply IH.
Qed.

(** Up, pressed as often as there are entries, is a full turn as well. *)
Lemma wrap_up_full_turn n i :
  0 <= i < Z.of_nat n -> Nat.iter n (wrap_up (Z.of_nat n)) i = i.
Proof.
  intros Hi.
  rewrite <- (wrap_down_full_turn n i Hi) at 1.
  now apply iter_wrap_up_down.
Qed.

Lemma js_length_pos {A : Type} (l : list A) : l <> [] -> 0 < js_length l.
Proof. intros Hne. unfold js_length. destruct l; [contradiction | cbn; lia]. Qed.

Lemma js_index_in_range (choices : list string) i :
  0 <= i < js_length choices ->
  exists c, js_index choices i = Some c /\ In c choices
            /\ js_index_or_empty choices i = c.
Proof.
  intros Hi. unfold js_index_or_empty, js_index, js_length in *.
  destruct (Z.ltb_spec i 0); [lia|].
  destruct (choices !! Z.to_nat i) as [c|] eqn:Hc.
  - exists c. split; [reflexivity | split].
    + apply list_elem_of_In. eapply list_elem_of_lookup_2. exact Hc.
    + unfold js_or. destruct (String.eqb_spec c EmptyString); congruence.
  - apply lookup_ge_None in Hc. lia.
Qed.

Lemma handleSelectable_key_range choices i ev i' :
  0 <= i < js_length choices ->
  handleSelectable_key choices i ev = Continue i' ->
  0 <= i' < js_length choices.
Proof.
  intros Hi Hstep. unfold handleSelectable_key in Hstep.
  destruct (key_is ev "up").
  { injection Hstep as <-. now apply wrap_up_range. }
  destruct (key_is ev "down").
  { injection Hstep as <-. now apply wrap_down_range. }
  destruct (key_is ev "return"); [discriminate|].
  now injection Hstep as <-.
Qed.

Lemma run_selectable_range choices i evs :
  0 <= i < js_length choices ->
  match run_keys (handleSelectable_key choices) i evs with
  | Pending i' => 0 <= i' < js_length choices
  | Resolved r => In r choices
  | Exited => True
  end.
Proof.
  revert i. induction evs as [|ev evs IH]; intros i Hi; cbn.
  - exact Hi.
  - destruct (key_ctrl ev && key_is ev "c"); [exact I|].
    destruct (handleSelectable_key choices i ev) as [i'|r] eqn:Hstep.
    + apply IH. eapply handleSelectable_key_range; eassumption.
    + unfold handleSelectable_key in Hstep.
      destruct (key_is ev "up"); [discriminate|].
      destruct (key_is ev "down"); [discriminate|].
      destruct (key_is ev "return"); [|discriminate].
      injection Hstep as <-.
      destruct (js_index_in_range choices i Hi) as (c & _ & Hin & ->).
      exact Hin.
Qed.

(** X5. A list prompt with at least one choice keeps its cursor on an
    entry of the list whatever keys arrive, and when it resolves, it
    resolves with one of the choices. *)
Theorem handleSelectable_resolves_choice (choices : list string)
    (evs : list KeyPress) :
  choices <> [] ->
  (forall i, handleSelectable (Some choices) evs = Pending i ->
             0 <= i < js_length choices)
  /\ (forall r, handleSelectable (Some choices) evs = Resolved r ->
                In r choices).
Proof.
  intros Hne. pose proof (js_length_pos choices Hne) as Hn.
  pose proof (run_selectable_range choices 0 evs ltac:(lia)) as Hrun.
  unfold handleSelectable. cbn [choices_or_empty].
  destruct (run_keys (handleSelectable_key choices) 0 evs);
    split; intros x Hx; try discriminate; injection Hx as <-; exact Hrun.
Qed.

Lemma handleSelectable_resolves_choice_witness :
  ["React"; "Vue"] <> []
  /\ (forall r, handleSelectable (Some ["React"; "Vue"])
                  [KeyUp; KeySpace; KeyReturn] = Resolved r ->
                In r ["React"; "Vue"]).
Proof.
  assert (Hne : ["React"; "Vue"] <> []) by discriminate.
  split; [exact Hne|].
  exact (proj2 (handleSelectable_resolves_choice ["React"; "Vue"]
                  [KeyUp; KeySpace; KeyReturn] Hne)).
Defined.

(** X6. Down pressed [k] times from the start, [k] below the number of
    choices, and then confirm, resolves with the choice at position [k]. *)
Theorem handleSelectable_selects_kth (choices : list string) (k : nat)
    (c : string) (down confirm : KeyPress) :
  key_is down "down" = true ->
  key_is confirm "return" = true ->
  choices !! k = Some c ->
  handleSelectable (Some choices) (repeat down k ++ [confirm])%list
  = Resolved c.
Proof.
  intros Hd Hc Hk. unfold handleSelectable. cbn [choices_or_empty].
  assert (Hlt : Z.of_nat k < js_length choices).
  { apply lookup_lt_Some in Hk. unfold js_length. lia. }
  erewrite run_keys_app.
  2:{ apply (run_keys_repeat _ (wrap_down (js_length choices)) down k 0).
      - apply (not_interrupt down "down" Hd). discriminate.
      - intros i. now apply handleSelectable_down. }
  rewrite iter_wrap_down_from_top by exact Hlt.
  cbn [run_keys]. rewrite (not_interrupt confirm "return" Hc) by discriminate.
  rewrite handleSelectable_return by exact Hc.
  destruct (js_index_in_range choices (Z.of_nat k) ltac:(lia))
    as (c' & Hc' & _ & ->).
  unfold js_index in Hc'. destruct (Z.ltb_spec (Z.of_nat k) 0); [lia|].
  rewrite Nat2Z.id in Hc'. congruence.
Qed.

Lemma handleSelectable_selects_kth_witness :
  (key_is KeyDown "down" = true /\ key_is KeyReturn "return" = true
   /\ ["MySQL"; "PostgreSQL"; "MongoDB"] !! 2%nat = Some "MongoDB")
  /\ handleSelectable (Some ["MySQL"; "PostgreSQL"; "MongoDB"])
       [KeyDown; KeyDown; KeyReturn] = Resolved "MongoDB".
Proof.
  split; [repeat split|].
  exact (handleSelectable_selects_kth ["MySQL"; "PostgreSQL"; "MongoDB"] 2
           "MongoDB" KeyDown KeyReturn eq_refl eq_refl eq_refl).
Defined.

(** X7. On a list that is not empty, up and down undo each other, and up
    pressed as many times as there are entries comes back to where it
    started, as down does. *)
Theorem handleSelectable_up_down_inverse (choices : list string) (i : Z)
    (up down : KeyPress) :
  key_is up "up" = true ->
  key_is down "down" = true ->
  0 <= i < js_length choices ->
  run_keys (handleSelectable_key choices) i [down; up] = Pending i
  /\ run_keys (handleSelectable_key choices) i [up; down] = Pending i
  /\ run_keys (handleSelectable_key choices) i
       (repeat up (List.length choices)) = Pending i.
Proof.
  intros Hu Hd Hi.
  assert (Hnu := not_interrupt up "up" Hu ltac:(discriminate)).
  assert (Hnd := not_interrupt down "down" Hd ltac:(discriminate)).
  split; [|split].
  - cbn [run_keys]. rewrite Hnd, Hnu.
    rewrite handleSelectable_down by exact Hd.
    rewrite handleSelectable_up by exact Hu.
    now rewrite wrap_up_down.
  - cbn [run_keys]. rewrite Hnd, Hnu.
    rewrite handleSelectable_up by exact Hu.
    rewrite handleSelectable_down by exact Hd.
    now rewrite wrap_down_up.
  - rewrite (run_keys_repeat _ (wrap_up (js_length choices)) up _ i Hnu).
    + unfold js_length in *. now rewrite wrap_up_full_turn.
    + intros i0. now apply handleSelectable_up.
Qed.

Lemma handleSelectable_up_down_inverse_witness :
  (key_is KeyUp "up" = true /\ key_is KeyDown "down" = true
   /\ 0 <= 2 < js_length ["a"; "b"; "c"])
  /\ run_keys (handleSelectable_key ["a"; "b"; "c"]) 2 [KeyDown; KeyUp]
     = Pending 2
  /\ run_keys (handleSelectable_key ["a"; "b"; "c"]) 2 [KeyUp; KeyUp; KeyUp]
     = Pending 2.
Proof.
  assert (Hi : 0 <= 2 < js_length ["a"; "b"; "c"])
    by (vm_compute; split; [discriminate | reflexivity]).
  pose proof (handleSelectable_up_down_inverse ["a"; "b"; "c"] 2 KeyUp KeyDown
                eq_refl eq_refl Hi) as (H1 & _ & H3).
  split; [repeat split; try reflexivity; apply Hi | split; [exact H1 | exact H3]].
Defined.

(** ** The selection of the multi-select *)

Lemma handleCheckbox_key_range choices st ev st' :
  0 <= cb_currentIndex st < js_length choices ->
  Forall (fun x => 0 <= x < js_length choices) (cb_selectedItems st) ->
  handleCheckbox_key choices st ev = Continue st' ->
  0 <= cb_currentIndex st' < js_length choices
  /\ Forall (fun x => 0 <= x < js_length choices) (cb_selectedItems st').
Proof.
  intros Hi Hs Hstep. unfold handleCheckbox_key in Hstep.
  destruct (key_is ev "up").
  { injection Hstep as <-. split; [now apply wrap_up_range | exact Hs]. }
  destruct (key_is ev "down").
  { injection Hstep as <-. split; [now apply wrap_down_range | exact Hs]. }
  destruct (key_is ev "space").
  { injection Hstep as <-. split; [exact Hi|].
    now apply (toggle_Forall _ _ _ Hi Hs). }
  destruct (key_is ev "return"); [discriminate|].
  injection Hstep as <-. now split.
Qed.

Lemma run_checkbox_range choices st evs st' :
  0 <= cb_currentIndex st < js_length choices ->
  Forall (fun x => 0 <= x < js_length choices) (cb_selectedItems st) ->
  run_keys (handleCheckbox_key choices) st evs = Pending st' ->
  0 <= cb_currentIndex st' < js_length choices
  /\ Forall (fun x => 0 <= x < js_length choices) (cb_selectedItems st').
Proof.
  revert st. induction evs as [|ev evs IH]; intros st Hi Hs Hrun; cbn in Hrun.
  - injection Hrun as <-. now split.
  - destruct (key_ctrl ev && key_is ev "c"); [discriminate|].
    destruct (handleCheckbox_key choices st ev) as [st1|r] eqn:Hstep;
      [|discriminate].
    destruct (handleCheckbox_key_range _ _ _ _ Hi Hs Hstep) as [Hi1 Hs1].
    now apply (IH st1).
Qed.

(** X8. A multi-select with at least one choice: whatever keys arrive,
    every selected index is an index of the list and is selected once, and
    the confirm key resolves with the labels of the selected indices, each
    label once per selected index, in some order. *)
Theorem handleCheckbox_resolves_selection (choices : list string)
    (evs : list KeyPress) (st : CheckboxState) (confirm : KeyPress) :
  choices <> [] ->
  key_is confirm "return" = true ->
  handleCheckbox (Some choices) evs = Pending st ->
  NoDup (cb_selectedItems st)
  /\ Forall (fun x => 0 <= x < js_length choices) (cb_selectedItems st)
  /\ exists labels,
       handleCheckbox (Some choices) (evs ++ [confirm])%list = Resolved labels
       /\ labels ≡ₚ map (js_index_or_empty choices) (cb_selectedItems st)
       /\ Forall (fun c => In c choices) labels.
Proof.
  intros Hne Hc Hrun. pose proof (js_length_pos choices Hne) as Hn.
  pose proof (handleCheckbox_inv _ _ _ Hrun) as (_ & _ & Hnd).
  unfold handleCheckbox in *. cbn [choices_or_empty] in *.
  destruct (run_checkbox_range choices (mkCheckbox 0 JSSet.empty) evs st
              ltac:(cbn; lia) ltac:(constructor) Hrun) as [_ Hs].
  split; [exact Hnd | split; [exact Hs|]].
  eexists. split; [|split].
  - rewrite (run_keys_app _ _ _ _ _ Hrun). cbn [run_keys].
    rewrite (not_interrupt confirm "return" Hc) by discriminate.
    now rewrite handleCheckbox_return by exact Hc.
  - apply Permutation_map. apply sort_by_perm.
  - apply List.Forall_map.
    assert (Hs' : Forall (fun x => 0 <= x < js_length choices)
                    (js_sort (cb_selectedItems st))).
    { unfold js_sort. now rewrite sort_by_perm. }
    eapply List.Forall_impl; [|exact Hs']. cbn. intros x Hx.
    destruct (js_index_in_range choices x Hx) as (c & _ & Hin & ->).
    exact Hin.
Qed.

Lemma handleCheckbox_resolves_selection_witness :
  (["A"; "B"; "C"] <> [] /\ key_is KeyReturn "return" = true
   /\ handleCheckbox (Some ["A"; "B"; "C"]) [KeyUp; KeySpace; KeyDown; KeySpace]
      = Pending (mkCheckbox 0 [2; 0]))
  /\ NoDup [2; 0].
Proof.
  assert (Hne : ["A"; "B"; "C"] <> []) by discriminate.
  split; [repeat split; exact Hne|].
  exact (proj1 (handleCheckbox_resolves_selection ["A"; "B"; "C"]
                  [KeyUp; KeySpace; KeyDown; KeySpace] (mkCheckbox 0 [2; 0])
                  KeyReturn Hne eq_refl eq_refl)).
Defined.

(** X9. The result of a multi-select depends on which indices are selected
    and on nothing else: two key sequences that leave the same indices
    selected, toggled in whatever order and however often, resolve with the
    same list of labels. *)
Theorem handleCheckbox_order_insensitive (choices : option (list string))
    (evs1 evs2 : list KeyPress) (st1 st2 : CheckboxState)
    (confirm : KeyPress) :
  key_is confirm "return" = true ->
  handleCheckbox choices evs1 = Pending st1 ->
  handleCheckbox choices evs2 = Pending st2 ->
  (forall x, JSSet.has (cb_selectedItems st1) x
             = JSSet.has (cb_selectedItems st2) x) ->
  handleCheckbox choices (evs1 ++ [confirm])%list
  = handleCheckbox choices (evs2 ++ [confirm])%list.
Proof.
  intros Hc H1 H2 Hsame.
  pose proof (handleCheckbox_inv _ _ _ H1) as (_ & _ & Hnd1).
  pose proof (handleCheckbox_inv _ _ _ H2) as (_ & _ & Hnd2).
  assert (Hp : cb_selectedItems st1 ≡ₚ cb_selectedItems st2).
  { apply NoDup_Permutation; [exact Hnd1 | exact Hnd2|].
    intros x. rewrite !list_elem_of_In, <- !JSSet_has_In. now rewrite Hsame. }
  unfold handleCheckbox in *.
  rewrite (run_keys_app _ _ _ _ _ H1), (run_keys_app _ _ _ _ _ H2).
  cbn [run_keys]. rewrite (not_interrupt confirm "return" Hc) by discriminate.
  rewrite !handleCheckbox_return by exact Hc.
  now rewrite (js_sort_perm_eq _ _ Hp).
Qed.

Lemma handleCheckbox_order_insensitive_witness :
  (key_is KeyReturn "return" = true
   /\ handleCheckbox (Some ["A"; "B"; "C"]) [KeySpace; KeyDown; KeySpace]
      = Pending (mkCheckbox 1 [0; 1])
   /\ handleCheckbox (Some ["A"; "B"; "C"])
        [KeyDown; KeySpace; KeyUp; KeySpace; KeyDown; KeyDown]
      = Pending (mkCheckbox 2 [1; 0])
   /\ (forall x, JSSet.has [0; 1] x = JSSet.has [1; 0] x))
  /\ handleCheckbox (Some ["A"; "B"; "C"])
       [KeySpace; KeyDown; KeySpace; KeyReturn]
     = handleCheckbox (Some ["A"; "B"; "C"])
         [KeyDown; KeySpace; KeyUp; KeySpace; KeyDown; KeyDown; KeyReturn].
Proof.
  assert (Hsame : forall x, JSSet.has [0; 1] x = JSSet.has [1; 0] x).
  { intros x. unfold JSSet.has. cbn. now rewrite !orb_false_r, orb_comm. }
  split; [repeat split; exact Hsame|].
  exact (handleCheckbox_order_insensitive (Some ["A"; "B"; "C"])
           [KeySpace; KeyDown; KeySpace]
           [KeyDown; KeySpace; KeyUp; KeySpace; KeyDown; KeyDown]
           (mkCheckbox 1 [0; 1]) (mkCheckbox 2 [1; 0]) KeyReturn
           eq_refl eq_refl eq_refl Hsame).
Defined.

Lemma run_checkbox_no_space choices st evs st' :
  Forall (fun ev => key_is ev "space" = false) evs ->
  run_keys (handleCheckbox_key choices) st evs = Pending st' ->
  cb_selectedItems st' = cb_selectedItems st.
Proof.
  intros Hns. revert st. induction Hns as [|ev evs Hev Hns IH];
    intros st Hrun; cbn in Hrun.
  - now injection Hrun as <-.
  - destruct (key_ctrl ev && key_is ev "c"); [discriminate|].
    destruct (handleCheckbox_key choices st ev) as [st1|r] eqn:Hstep;
      [|discriminate].
    rewrite (IH st1 Hrun). unfold handleCheckbox_key in Hstep. rewrite Hev in Hstep.
    destruct (key_is ev "up"); [now injection Hstep as <-|].
    destruct (key_is ev "down"); [now injection Hstep as <-|].
    destruct (key_is ev "return"); [discriminate | now injection Hstep as <-].
Qed.

(** X10. Only the toggle key selects: after keys among which there is no
    space, nothing is selected, and confirm resolves with the empty
    list. *)
Theorem handleCheckbox_nothing_toggled (choices : option (list string))
    (evs : list KeyPress) (st : CheckboxState) (confirm : KeyPress) :
  key_is confirm "return" = true ->
  Forall (fun ev => key_is ev "space" = false) evs ->
  handleCheckbox choices evs = Pending st ->
  cb_selectedItems st = []
  /\ handleCheckbox choices (evs ++ [confirm])%list = Resolved [].
Proof.
  intros Hc Hns Hrun.
  pose proof (run_checkbox_no_space _ _ _ _ Hns Hrun) as Hsel.
  cbn in Hsel. split; [exact Hsel|].
  unfold handleCheckbox in *. rewrite (run_keys_app _ _ _ _ _ Hrun).
  cbn [run_keys]. rewrite (not_interrupt confirm "return" Hc) by discriminate.
  rewrite handleCheckbox_return by exact Hc. now rewrite Hsel.
Qed.

Lemma handleCheckbox_nothing_toggled_witness :
  (key_is KeyReturn "return" = true
   /\ Forall (fun ev => key_is ev "space" = false) [KeyDown; KeyDown; KeyUp]
   /\ handleCheckbox (Some ["A"; "B"; "C"]) [KeyDown; KeyDown; KeyUp]
      = Pending (mkCheckbox 1 []))
  /\ handleCheckbox (Some ["A"; "B"; "C"]) [KeyDown; KeyDown; KeyUp; KeyReturn]
     = Resolved [].
Proof.
  assert (Hns : Forall (fun ev => key_is ev "space" = false)
                  [KeyDown; KeyDown; KeyUp]) by (repeat constructor).
  split; [repeat split; exact Hns|].
  exact (proj2 (handleCheckbox_nothing_toggled (Some ["A"; "B"; "C"])
                  [KeyDown; KeyDown; KeyUp] (mkCheckbox 1 []) KeyReturn
                  eq_refl Hns eq_refl)).
Defined.

(** ** The buffer of the text prompt *)

(** X11. Typing fills the buffer: after character keys in a row the
    buffer holds their strings, appended in the order they were typed, and
    confirm resolves with that text, or with the default when nothing was
    typed. *)
Theorem handleInput_typed_text (default_ : option string)
    (evs : list KeyPress) (strs : list string) (confirm : KeyPress) :
  key_is confirm "return" = true ->
  Forall2 is_character_key evs strs ->
  handleInput default_ (evs ++ [confirm])%list
  = Resolved (js_or (fold_left String.append strs EmptyString)
                    (default EmptyString default_)).
Proof.
  intros Hc Hty. unfold handleInput.
  rewrite (run_keys_app _ _ _ _ _ (run_input_typed _ _ _ _ Hty)).
  cbn [run_keys]. rewrite (not_interrupt confirm "return" Hc) by discriminate.
  rewrite handleInput_return by exact Hc. cbn [input].
  now rewrite input_defaultValue_spec.
Qed.

Lemma handleInput_typed_text_witness :
  (key_is KeyReturn "return" = true
   /\ Forall2 is_character_key [typed "B" "b"; typed "t" "t"; typed "n" "n"]
        ["B"; "t"; "n"])
  /\ handleInput (Some "Component")
       [typed "B" "b"; typed "t" "t"; typed "n" "n"; KeyReturn]
     = Resolved "Btn".
Proof.
  assert (Hty : Forall2 is_character_key
                  [typed "B" "b"; typed "t" "t"; typed "n" "n"]
                  ["B"; "t"; "n"]).
  { repeat constructor; discriminate. }
  split; [split; [reflexivity | exact Hty]|].
  exact (handleInput_typed_text (Some "Component") _ _ KeyReturn eq_refl Hty).
Defined.

Lemma append_empty_r s : String.append s EmptyString = s.
Proof.
  induction s as [|c s IH]; [reflexivity|].
  change (String c (String.append s EmptyString) = String c s).
  now rewrite IH.
Qed.

Lemma substring_append_prefix a t m :
  String.substring 0 (String.length a + m) (String.append a t)
  = String.append a (String.substring 0 m t).
Proof.
  induction a as [|c a IH]; [reflexivity|].
  change (String c (String.substring 0 (String.length a + m) (String.append a t))
          = String c (String.append a (String.substring 0 m t))).
  now rewrite IH.
Qed.

Lemma substring_prefix_length t m :
  (m <= String.length t)%nat -> String.length (String.substring 0 m t) = m.
Proof.
  revert m. induction t as [|c t IH]; intros [|m] Hm; simpl in *;
    try reflexivity; try lia.
  f_equal. apply IH. lia.
Qed.

(** [slice(0, -1)] takes one code unit from the end of what was appended
    last. *)
Lemma js_drop_last_append_nonempty a t :
  t <> EmptyString ->
  js_drop_last (String.append a t) = String.append a (js_drop_last t).
Proof.
  intros Hne. unfold js_drop_last. rewrite append_length.
  assert (Hlen : (1 <= String.length t)%nat)
    by (destruct t; [contradiction | simpl; lia]).
  replace (String.length a + String.length t - 1)%nat
    with (String.length a + (String.length t - 1))%nat by lia.
  apply substring_append_prefix.
Qed.

Lemma js_drop_last_length t :
  String.length (js_drop_last t) = (String.length t - 1)%nat.
Proof. unfold js_drop_last. apply substring_prefix_length. lia. Qed.

Lemma handleInput_backspace_step defaultValue st ev :
  key_is ev "backspace" = true ->
  exists st',
    handleInput_key defaultValue st ev = Continue st'
    /\ input st' = js_drop_last (input st).
Proof.
  intros Hk. unfold handleInput_key. key_cases. eexists. split; [reflexivity|].
  assert (Hreset : forall x, input (resetLine x) = input x).
  { intros x. unfold resetLine. now destruct (0 <? String.length (input x))%nat. }
  rewrite Hreset.
  destruct (Nat.ltb_spec 0 (String.length (input st))) as [_|Hlen];
    [reflexivity|].
  assert (He : input st = EmptyString) by (apply length_zero_empty; lia).
  now rewrite He.
Qed.

Lemma run_input_backspaces defaultValue ev n st a t :
  key_is ev "backspace" = true ->
  input st = String.append a t ->
  String.length t = n ->
  exists st',
    run_keys (handleInput_key defaultValue) st (repeat ev n) = Pending st'
    /\ input st' = a.
Proof.
  intros Hk. revert st t.
  induction n as [|n IH]; intros st t Hin Hlen; cbn [repeat run_keys].
  - apply length_zero_empty in Hlen. subst t. rewrite append_empty_r in Hin.
    eauto.
  - rewrite (not_interrupt ev "backspace" Hk) by discriminate.
    destruct (handleInput_backspace_step defaultValue st ev Hk)
      as (st1 & -> & Hin1).
    apply (IH st1 (js_drop_last t)).
    + rewrite Hin1, Hin. apply js_drop_last_append_nonempty.
      intros ->. discriminate Hlen.
    + rewrite js_drop_last_length, Hlen. lia.
Qed.

(** X12. Backspace takes back one code unit. After a character key, as
    many backspaces as its string has code units give back the buffer as it
    was; one backspace gives it back when the key carried one code unit,
    and leaves the others of that key in the buffer when it carried
    more. *)
Theorem handleInput_backspaces_undo (defaultValue : string) (st : InputState)
    (ev backspace : KeyPress) (s : string) :
  is_character_key ev s ->
  key_is backspace "backspace" = true ->
  (exists st',
     run_keys (handleInput_key defaultValue) st
       (ev :: repeat backspace (String.length s)) = Pending st'
     /\ input st' = input st)
  /\ (exists st',
        run_keys (handleInput_key defaultValue) st [ev; backspace] = Pending st'
        /\ input st' = String.append (input st) (js_drop_last s)).
Proof.
  intros Hev Hb. split.
  - cbn [run_keys]. rewrite (character_key_not_interrupt _ _ Hev).
    rewrite (handleInput_character _ _ _ _ Hev).
    apply (run_input_backspaces defaultValue backspace (String.length s) _
             (input st) s Hb); reflexivity.
  - cbn [run_keys]. rewrite (character_key_not_interrupt _ _ Hev).
    rewrite (handleInput_character _ _ _ _ Hev).
    rewrite (not_interrupt backspace "backspace" Hb) by discriminate.
    destruct (handleInput_backspace_step defaultValue
                (mkInput (String.append (input st) s) true) backspace Hb)
      as (st1 & -> & Hin1).
    exists st1. split; [reflexivity|]. rewrite Hin1. cbn [input].
    apply js_drop_last_append_nonempty. apply Hev.
Qed.

Lemma handleInput_backspaces_undo_witness :
  (is_character_key (typed "xy" "x") "xy"
   /\ key_is KeyBackspace "backspace" = true)
  /\ (exists st',
        run_keys (handleInput_key "Component") (mkInput "ab" true)
          (typed "xy" "x" :: repeat KeyBackspace (String.length "xy"))
        = Pending st'
        /\ input st' = "ab")
  /\ (exists st',
        run_keys (handleInput_key "Component") (mkInput "ab" true)
          [typed "xy" "x"; KeyBackspace] = Pending st'
        /\ input st' = String.append "ab" (js_drop_last "xy")).
Proof.
  assert (Hev : is_character_key (typed "xy" "x") "xy")
    by (repeat split; discriminate).
  split; [split; [exact Hev | reflexivity]|].
  exact (handleInput_backspaces_undo "Component" (mkInput "ab" true)
           (typed "xy" "x") KeyBackspace "xy" Hev eq_refl).
Defined.

Lemma handleInput_key_hasInput defaultValue st ev st' :
  hasInput st = negb (String.eqb (input st) EmptyString) ->
  handleInput_key defaultValue st ev = Continue st' ->
  hasInput st' = negb (String.eqb (input st') EmptyString).
Proof.
  intros Hinv Hstep. unfold handleInput_key in Hstep.
  destruct (key_is ev "return"); [discriminate|].
  assert (Hreset : forall s h,
            (h = true \/ s = EmptyString) ->
            hasInput (resetLine (mkInput s h))
            = negb (String.eqb (input (resetLine (mkInput s h))) EmptyString)).
  { intros s h Hh. unfold resetLine. cbn [input].
    destruct s as [|a s]; cbn; [reflexivity|].
    destruct Hh as [-> |Hh]; [reflexivity | discriminate]. }
  destruct (key_is ev "backspace").
  { injection Hstep as <-.
    destruct (Nat.ltb_spec 0 (String.length (input st))) as [Hlen|Hlen].
    - apply Hreset. left. rewrite Hinv.
      destruct (input st); [cbn in Hlen; lia | reflexivity].
    - destruct st as [s h]. cbn [input hasInput] in *. apply Hreset. right.
      apply length_zero_empty. lia. }
  destruct (str_truthy ev && negb (key_ctrl ev) && negb (key_meta ev)).
  - injection Hstep as <-. apply Hreset. now left.
  - now injection Hstep as <-.
Qed.

(** X13. The flag [hasInput] is kept in step with the buffer: after any
    keys it is set exactly when the buffer is not empty. *)
Theorem handleInput_hasInput_invariant (default_ : option string)
    (evs : list KeyPress) (st : InputState) :
  handleInput default_ evs = Pending st ->
  hasInput st = negb (String.eqb (input st) EmptyString).
Proof.
  unfold handleInput.
  assert (Hgen : forall st0,
            hasInput st0 = negb (String.eqb (input st0) EmptyString) ->
            run_keys (handleInput_key (input_defaultValue default_)) st0 evs
            = Pending st ->
            hasInput st = negb (String.eqb (input st) EmptyString)).
  { induction evs as [|ev evs IH]; intros st0 Hinv Hrun; cbn in Hrun.
    - now injection Hrun as <-.
    - destruct (key_ctrl ev && key_is ev "c"); [discriminate|].
      destruct (handleInput_key (input_defaultValue default_) st0 ev)
        as [st1|r] eqn:Hstep; [|discriminate].
      apply (IH st1); [|exact Hrun].
      eapply handleInput_key_hasInput; eassumption. }
  apply Hgen. reflexivity.
Qed.

Lemma handleInput_hasInput_invariant_witness :
  handleInput None [typed "a" "a"; KeyBackspace; KeyBackspace]
  = Pending (mkInput EmptyString false)
  /\ hasInput (mkInput EmptyString false)
     = negb (String.eqb (input (mkInput EmptyString false)) EmptyString).
Proof.
  split; [reflexivity|].
  exact (handleInput_hasInput_invariant None
           [typed "a" "a"; KeyBackspace; KeyBackspace]
           (mkInput EmptyString false) eq_refl).
Defined.

(** ** The buffer of the confirm prompt *)

Lemma handleConfirm_key_buffer defaultValue st ev st' :
  input st = EmptyString \/ input st = "y" \/ input st = "n" ->
  handleConfirm_key defaultValue st ev = Continue st' ->
  input st' = EmptyString \/ input st' = "y" \/ input st' = "n".
Proof.
  intros Hinv Hstep. unfold handleConfirm_key in Hstep.
  destruct (key_is ev "return"); [discriminate|].
  destruct (key_is ev "backspace").
  { injection Hstep as <-. left.
    destruct Hinv as [Hs|[Hs|Hs]]; destruct st as [s h]; cbn in Hs; subst s;
      reflexivity. }
  destruct (str_truthy ev && negb (key_ctrl ev) && negb (key_meta ev));
    [|now injection Hstep as <-].
  cbv zeta in Hstep.
  destruct (String.eqb_spec (js_toLowerCase (str_value ev)) "y") as [Hy|_].
  { injection Hstep as <-. rewrite Hy. right. now left. }
  destruct (String.eqb_spec (js_toLowerCase (str_value ev)) "n") as [Hn|_].
  { injection Hstep as <-. rewrite Hn. right. now right. }
  now injection Hstep as <-.
Qed.

Lemma handleConfirm_buffer default_ evs st :
  handleConfirm default_ evs = Pending st ->
  input st = EmptyString \/ input st = "y" \/ input st = "n".
Proof.
  unfold handleConfirm.
  assert (Hgen : forall st0,
            (input st0 = EmptyString \/ input st0 = "y" \/ input st0 = "n") ->
            run_keys (handleConfirm_key (confirm_defaultValue default_)) st0 evs
            = Pending st ->
            input st = EmptyString \/ input st = "y" \/ input st = "n").
  { induction evs as [|ev evs IH]; intros st0 Hinv Hrun; cbn in Hrun.
    - now injection Hrun as <-.
    - destruct (key_ctrl ev && key_is ev "c"); [discriminate|].
      destruct (handleConfirm_key (confirm_defaultValue default_) st0 ev)
        as [st1|r] eqn:Hstep; [|discriminate].
      apply (IH st1); [|exact Hrun].
      eapply handleConfirm_key_buffer; eassumption. }
  apply Hgen. now left.
Qed.

(** X14. The buffer of a confirm prompt never holds more than one letter:
    after any keys it is empty, [y] or [n]. One backspace therefore empties
    it, and backspace followed by confirm resolves with the default: true
    unless the default was given as false. *)
Theorem handleConfirm_backspace_default (default_ : option bool)
    (evs : list KeyPress) (st : InputState) (backspace confirm : KeyPress) :
  key_is backspace "backspace" = true ->
  key_is confirm "return" = true ->
  handleConfirm default_ evs = Pending st ->
  (input st = EmptyString \/ input st = "y" \/ input st = "n")
  /\ handleConfirm default_ (evs ++ [backspace; confirm])%list
     = Resolved (default true default_).
Proof.
  intros Hb Hc Hrun. pose proof (handleConfirm_buffer _ _ _ Hrun) as Hinv.
  split; [exact Hinv|].
  unfold handleConfirm in *. rewrite (run_keys_app _ _ _ _ _ Hrun).
  cbn [run_keys].
  rewrite (not_interrupt backspace "backspace" Hb) by discriminate.
  rewrite (not_interrupt confirm "return" Hc) by discriminate.
  assert (Hstep : exists h,
            handleConfirm_key (confirm_defaultValue default_) st backspace
            = Continue (mkInput EmptyString h)).
  { unfold handleConfirm_key. key_cases.
    destruct st as [s h]. cbn [input hasInput] in *.
    destruct Hinv as [-> |[-> | ->]]; eexists; reflexivity. }
  destruct Hstep as [h ->]. rewrite handleConfirm_return by exact Hc.
  destruct default_ as [[]|]; reflexivity.
Qed.

Lemma handleConfirm_backspace_default_witness :
  (key_is KeyBackspace "backspace" = true /\ key_is KeyReturn "return" = true
   /\ handleConfirm (Some false) [typed "Y" "y"]
      = Pending (mkInput "y" true))
  /\ handleConfirm (Some false) [typed "Y" "y"; KeyBackspace; KeyReturn]
     = Resolved false.
Proof.
  split; [repeat split|].
  exact (proj2 (handleConfirm_backspace_default (Some false) [typed "Y" "y"]
                  (mkInput "y" true) KeyBackspace KeyReturn
                  eq_refl eq_refl eq_refl)).
Defined.

(** X15. The letter typed last decides: whatever was typed before and
    whatever the default is, an accepted letter followed by confirm
    resolves with true for [y] or [Y] and with false for [n] or [N]. *)
Theorem handleConfirm_last_letter_wins (default_ : option bool)
    (evs : list KeyPress) (st : InputState) (ev confirm : KeyPress)
    (s : string) :
  key_is confirm "return" = true ->
  is_character_key ev s ->
  s = "y" \/ s = "Y" \/ s = "n" \/ s = "N" ->
  handleConfirm default_ evs = Pending st ->
  handleConfirm default_ (evs ++ [ev; confirm])%list
  = Resolved (String.eqb s "y" || String.eqb s "Y").
Proof.
  intros Hc Hev Hs Hrun. unfold handleConfirm in *.
  rewrite (run_keys_app _ _ _ _ _ Hrun). cbn [run_keys].
  rewrite (character_key_not_interrupt _ _ Hev).
  rewrite (handleConfirm_character _ _ _ _ Hev).
  rewrite (proj2 (js_toLowerCase_yn s) Hs).
  rewrite (not_interrupt confirm "return" Hc) by discriminate.
  rewrite handleConfirm_return by exact Hc. cbn [input].
  destruct Hs as [-> |[-> |[-> | ->]]]; reflexivity.
Qed.

Lemma handleConfirm_last_letter_wins_witness :
  (key_is KeyReturn "return" = true
   /\ is_character_key (typed "Y" "y") "Y"
   /\ handleConfirm (Some false) [typed "n" "n"; typed "x" "x"]
      = Pending (mkInput "n" true))
  /\ handleConfirm (Some false)
       [typed "n" "n"; typed "x" "x"; typed "Y" "y"; KeyReturn]
     = Resolved true.
Proof.
  assert (Hev : is_character_key (typed "Y" "y") "Y")
    by (repeat split; discriminate).
  split; [split; [reflexivity | split; [exact Hev | reflexivity]]|].
  exact (handleConfirm_last_letter_wins (Some false)
           [typed "n" "n"; typed "x" "x"] (mkInput "n" true) (typed "Y" "y")
           KeyReturn "Y" eq_refl Hev ltac:(right; left; reflexivity) eq_refl).
Defined.

(** ** Navigation in the directory browser *)

Section BrowserFacts.
Context {FS : Type} `{FileSystem FS}.
Variable basePath : option string.
Implicit Types (w : World FS) (p : string) (st : DirectoryState).

Lemma render_inv p i w w' :
  render basePath p i w = (w', Returned tt) ->
  w' = w /\ exists choices, getChoices basePath p w = (w, Returned choices).
Proof.
  unfold render, bind, ret. rewrite getChoices_eq.
  destruct (readdirSync (fs w) p); intros Hr; [|discriminate].
  injection Hr as <-. split; [reflexivity | eauto].
Qed.

Lemma getChoices_head p w choices :
  getChoices basePath p w = (w, Returned choices) ->
  js_index choices 0 = Some SELECT_THIS_PATH /\ 0 < js_length choices.
Proof.
  rewrite getChoices_eq. destruct (readdirSync (fs w) p); [|discriminate].
  intros Hc. injection Hc as <-. split; [reflexivity|].
  unfold js_length. cbn. lia.
Qed.

Lemma getChoices_back p w choices :
  getChoices basePath p w = (w, Returned choices) ->
  p <> basePath_or_dot basePath ->
  js_index choices 1 = Some SELECT_BACK_PATH.
Proof.
  rewrite getChoices_eq. destruct (readdirSync (fs w) p); [|discriminate].
  intros Hc Hne. injection Hc as <-.
  apply String.eqb_neq in Hne. now rewrite Hne.
Qed.

(** X16. A directory prompt lists its base path first. If that listing
    throws, the prompt throws the same error at once; if it returns, an
    immediate confirm resolves with the base path, [.] when none or the
    empty string was given. *)
Theorem handleDirectory_first_listing (w : World FS) (confirm : KeyPress) :
  key_is confirm "return" = true ->
  match readdirSync (fs w) (basePath_or_dot basePath) with
  | Thrown e =>
      forall evs, handleDirectory basePath evs w = (w, DirThrown e)
  | Returned _ =>
      handleDirectory basePath [confirm] w
      = (w, DirResolved (basePath_or_dot basePath))
  end.
Proof.
  intros Hc.
  destruct (readdirSync (fs w) (basePath_or_dot basePath)) as [ds|e] eqn:Hls.
  - assert (Hch : exists choices,
              getChoices basePath (basePath_or_dot basePath) w
              = (w, Returned choices)).
    { rewrite getChoices_eq, Hls. eauto. }
    destruct Hch as [choices Hch].
    unfold handleDirectory. cbn [currentPath currentIndex].
    rewrite (render_returns _ _ _ _ _ Hch). cbn [run_directory].
    rewrite (not_interrupt confirm "return" Hc) by discriminate.
    rewrite (handleDirectory_select basePath _ _ _ _ _ Hch Hc
               (proj1 (getChoices_head _ _ _ Hch))).
    reflexivity.
  - intros evs. now apply handleDirectory_listing_error.
Qed.

(** X17. Backspace away from the base path does what confirm on the go-up
    marker does, which sits at index 1; at the base path backspace leaves
    the path and the cursor as they are. *)
Theorem handleDirectory_backspace (w : World FS) (p : string) (i : Z)
    (backspace confirm : KeyPress) :
  key_is backspace "backspace" = true ->
  key_is confirm "return" = true ->
  (p <> basePath_or_dot basePath ->
   handleDirectory_key basePath (mkDirectory p i Browsing) backspace w
   = handleDirectory_key basePath (mkDirectory p 1 Browsing) confirm w)
  /\ (p = basePath_or_dot basePath ->
      forall choices, getChoices basePath p w = (w, Returned choices) ->
      handleDirectory_key basePath (mkDirectory p i Browsing) backspace w
      = (w, Returned (Continue (mkDirectory p i Browsing)))).
Proof.
  intros Hb Hc. split.
  - intros Hne. cbn [handleDirectory_key mode]. unfold keyPressHandler, bind.
    cbn [currentPath currentIndex].
    destruct (getChoices basePath p w) as [w1 [choices|e]] eqn:Hch;
      [|reflexivity].
    assert (w1 = w) by (rewrite getChoices_eq in Hch;
                        destruct (readdirSync (fs w) p); congruence).
    subst w1. key_cases. rewrite (getChoices_back _ _ _ Hch Hne).
    apply String.eqb_neq in Hne. rewrite Hne. reflexivity.
  - intros -> choices Hch. cbn [handleDirectory_key mode].
    unfold keyPressHandler, bind. cbn [currentPath currentIndex].
    rewrite Hch. key_cases. now rewrite String.eqb_refl.
Qed.

(** What [createNewFolder] leaves behind, case by case. *)
Lemma createNewFolder_named_cases p folderName w :
  exists w' p' ok,
    createNewFolder_named p folderName w = (w', Returned (p', ok))
    /\ (ok = false -> p' = p)
    /\ (ok = true ->
        p' = Path.join p folderName /\ folderName <> EmptyString
        /\ existsSync (fs w) (Path.join p folderName) = false
        /\ mkdirSync (fs w) (Path.join p folderName) = (fs w', Returned tt)
        /\ errors w' = errors w)
    /\ (folderName = EmptyString -> w' = w /\ ok = false)
    /\ (existsSync (fs w) (Path.join p folderName) = true ->
        fs w' = fs w /\ ok = false).
Proof.
  unfold createNewFolder_named, bind, try_catch, io_existsSync, io_mkdirSync,
    logError, ret.
  destruct (String.eqb_spec folderName EmptyString) as [Hn|Hn].
  { exists w, p, false. repeat split; try reflexivity; try discriminate;
      now destruct w. }
  destruct (existsSync (fs w) (Path.join p folderName)) eqn:Hex.
  { eexists _, p, false. split; [reflexivity|].
    repeat split; try reflexivity; try discriminate; contradiction. }
  destruct (mkdirSync (fs w) (Path.join p folderName)) as [fs' [[]|e]] eqn:Hmk.
  - eexists _, _, true. split; [reflexivity|].
    repeat split; try reflexivity; try discriminate; try assumption;
      contradiction.
  - eexists _, p, false. split; [reflexivity|].
    repeat split; try reflexivity; try discriminate; contradiction.
Qed.

(** X18. Creating a folder from the browser never throws, and the browser
    moves only into a folder that [mkdirSync] has just created: the current
    path changes exactly when the name is not empty, nothing existed at the
    joined path and the creation returned; then nothing is logged. An empty
    name leaves the world as it is, an existing target leaves the file
    system as it is. *)
Theorem createNewFolder_moves_on_success (p folderName : string)
    (w w' : World FS) (r : outcome (string * bool)) :
  createNewFolder_named p folderName w = (w', r) ->
  exists p' ok,
    r = Returned (p', ok)
    /\ (ok = false -> p' = p)
    /\ (ok = true ->
        p' = Path.join p folderName /\ folderName <> EmptyString
        /\ existsSync (fs w) (Path.join p folderName) = false
        /\ mkdirSync (fs w) (Path.join p folderName) = (fs w', Returned tt)
        /\ errors w' = errors w)
    /\ (folderName = EmptyString -> w' = w /\ ok = false)
    /\ (existsSync (fs w) (Path.join p folderName) = true ->
        fs w' = fs w /\ ok = false).
Proof.
  intros Hrun.
  destruct (createNewFolder_named_cases p folderName w)
    as (w1 & p' & ok & Heq & Hrest).
  rewrite Heq in Hrun. injection Hrun as <- <-. eauto.
Qed.

End BrowserFacts.

Lemma handleDirectory_first_listing_witness :
  key_is KeyReturn "return" = true
  /\ handleDirectory None [KeyReturn] sample_world
     = (sample_world, DirResolved ".").
Proof.
  split; [reflexivity|].
  exact (handleDirectory_first_listing None sample_world KeyReturn eq_refl).
Defined.

Lemma handleDirectory_backspace_witness :
  (key_is KeyBackspace "backspace" = true /\ key_is KeyReturn "return" = true
   /\ "foo" <> basePath_or_dot (Some "."))
  /\ handleDirectory_key (Some ".") (mkDirectory "foo" 0 Browsing)
       KeyBackspace sample_world
     = handleDirectory_key (Some ".") (mkDirectory "foo" 1 Browsing)
         KeyReturn sample_world.
Proof.
  assert (Hne : "foo" <> basePath_or_dot (Some ".")) by discriminate.
  split; [repeat split; exact Hne|].
  exact (proj1 (handleDirectory_backspace (Some ".") sample_world "foo" 0
                  KeyBackspace KeyReturn eq_refl eq_refl) Hne).
Defined.

Lemma createNewFolder_moves_on_success_witness :
  createNewFolder_named "foo" "new" sample_world
  = (mkWorld (<["foo/new" := MemFS.Dir]> MemFS.sample) [],
     Returned ("foo/new", true))
  /\ exists p' ok,
       Returned ("foo/new", true) = Returned (p', ok)
       /\ (ok = false -> p' = "foo").
Proof.
  assert (Hrun : createNewFolder_named "foo" "new" sample_world
                 = (mkWorld (<["foo/new" := MemFS.Dir]> MemFS.sample) [],
                    Returned ("foo/new", true)))
    by (vm_compute; reflexivity).
  split; [exact Hrun|].
  destruct (createNewFolder_moves_on_success "foo" "new" sample_world _ _ Hrun)
    as (p' & ok & Hr & Hf & _).
  exists p', ok. split; [exact Hr | exact Hf].
Defined.

Section BrowserRuns.
Context {FS : Type} `{FileSystem FS}.
Variable basePath : option string.
Implicit Types (w : World FS) (p : string) (st : DirectoryState).

Lemma render_cases p i w :
  render basePath p i w
  = (w, match readdirSync (fs w) p with
        | Returned _ => Returned tt
        | Thrown e => Thrown e
        end).
Proof.
  unfold render, bind, ret. rewrite getChoices_eq.
  now destruct (readdirSync (fs w) p).
Qed.

Lemma getChoices_listing p w :
  (exists choices, getChoices basePath p w = (w, Returned choices))
  \/ (exists e, getChoices basePath p w = (w, Thrown e)
                /\ readdirSync (fs w) p = Thrown e).
Proof.
  rewrite getChoices_eq. destruct (readdirSync (fs w) p); eauto.
Qed.

Local Abbreviation on_entry := (on_entry basePath).

Lemma on_entry_top p w : on_entry (mkDirectory p 0 Browsing) w.
Proof.
  split; [reflexivity|]. cbn. intros choices Hch.
  pose proof (getChoices_head basePath _ _ _ Hch). lia.
Qed.

Lemma move_to_top (Q : string -> Prop) p w :
  (let (w', r) := (let* _ := render basePath p 0 in
                   ret (Continue (R := string) (mkDirectory p 0 Browsing))) w in
   w' = w
   /\ match r with
      | Returned (Continue st') => on_entry st' w
      | Returned (Resolve q) => Q q
      | Thrown e => exists q, readdirSync (fs w) q = Thrown e
      end).
Proof.
  unfold bind. rewrite render_cases.
  destruct (readdirSync (fs w) p) as [ds|e] eqn:Hls; cbn.
  - split; [reflexivity | apply on_entry_top].
  - split; [reflexivity | eauto].
Qed.

Lemma keyPressHandler_browse_step st ev w :
  on_entry st w ->
  key_is ev "space" = false ->
  let (w', r) := handleDirectory_key basePath st ev w in
  w' = w
  /\ match r with
     | Returned (Continue st') => on_entry st' w
     | Returned (Resolve p) => p = currentPath st
     | Thrown e => exists q, readdirSync (fs w) q = Thrown e
     end.
Proof.
  intros [Hmode Hidx] Hsp. destruct st as [p i m]. cbn in Hmode. subst m.
  cbn [handleDirectory_key mode]. unfold keyPressHandler.
  cbn [currentPath currentIndex] in *. unfold bind at 1.
  destruct (getChoices_listing p w) as [[choices Hch]|[e [Hch Hls]]];
    rewrite Hch; [|split; [reflexivity | eauto]].
  specialize (Hidx choices Hch).
  assert (Hsame : forall i',
            0 <= i' < js_length choices ->
            on_entry (mkDirectory p i' Browsing) w).
  { intros i' Hi'. split; [reflexivity|]. cbn. intros choices' Hch'.
    rewrite Hch in Hch'. now injection Hch' as <-. }
  destruct (key_is ev "up").
  { unfold bind. rewrite (render_returns _ _ _ _ _ Hch). cbn.
    split; [reflexivity|]. apply Hsame. now apply wrap_up_range. }
  destruct (key_is ev "down").
  { unfold bind. rewrite (render_returns _ _ _ _ _ Hch). cbn.
    split; [reflexivity|]. apply Hsame. now apply wrap_down_range. }
  rewrite Hsp.
  destruct (key_is ev "return").
  { destruct (js_index_in_range choices i Hidx) as (c & -> & _ & _).
    destruct (String.eqb c SELECT_THIS_PATH); [now split|].
    destruct (String.eqb c SELECT_BACK_PATH); apply move_to_top. }
  destruct (key_is ev "backspace").
  { destruct (negb (String.eqb p (basePath_or_dot basePath)));
      [apply move_to_top|].
    cbn. split; [reflexivity | now apply Hsame]. }
  cbn. split; [reflexivity | now apply Hsame].
Qed.

Lemma run_directory_browse_only st evs w :
  on_entry st w ->
  Forall (fun ev => key_is ev "space" = false) evs ->
  let (w', r) := run_directory basePath st evs w in
  w' = w
  /\ match r with
     | DirPending st' => mode st' = Browsing
     | DirThrown e => exists q, readdirSync (fs w) q = Thrown e
     | _ => True
     end.
Proof.
  intros Hinv Hns. revert st Hinv.
  induction Hns as [|ev evs Hev Hns IH]; intros st Hinv; cbn [run_directory].
  - split; [reflexivity | apply Hinv].
  - destruct (key_ctrl ev && key_is ev "c"); [now split|].
    pose proof (keyPressHandler_browse_step st ev w Hinv Hev) as Hstep.
    destruct (handleDirectory_key basePath st ev w) as [w1 [[st1|q]|e]];
      destruct Hstep as [-> Hr].
    + now apply IH.
    + now split.
    + now split.
Qed.

(** X19. In a world that only the program changes, so that the listing of
    a directory is the same at every key, and as long as the create-folder
    key is not pressed, the browser only reads: the file system and the log
    are left as they were, the only errors it can throw are those of a
    directory listing (confirm does not find the cursor off the listing),
    and a run that has not ended is still browsing. *)
Theorem handleDirectory_browse_only (evs : list KeyPress) (w : World FS) :
  Forall (fun ev => key_is ev "space" = false) evs ->
  fst (handleDirectory basePath evs w) = w
  /\ (forall e, snd (handleDirectory basePath evs w) = DirThrown e ->
                exists q, readdirSync (fs w) q = Thrown e)
  /\ (forall st, snd (handleDirectory basePath evs w) = DirPending st ->
                 mode st = Browsing).
Proof.
  intros Hns. unfold handleDirectory. cbn [currentPath currentIndex].
  rewrite render_cases.
  destruct (readdirSync (fs w) (basePath_or_dot basePath)) as [ds|e] eqn:Hls.
  - pose proof (run_directory_browse_only
                  (mkDirectory (basePath_or_dot basePath) 0 Browsing) evs w
                  (on_entry_top _ w) Hns) as Hrun.
    destruct (run_directory basePath
                (mkDirectory (basePath_or_dot basePath) 0 Browsing) evs w)
      as [w1 r]. destruct Hrun as [-> Hr]. cbn [fst snd].
    split; [reflexivity | split]; intros x Hx; subst r; exact Hr.
  - cbn [fst snd]. split; [reflexivity | split]; intros x Hx;
      [injection Hx as <-; eauto | discriminate].
Qed.

(** X20. Every key that changes the current path, in either direction or
    into a folder just created, puts the cursor back on the first entry,
    the marker that selects the current path: a confirm right after it
    resolves with the new path. *)
Theorem handleDirectory_path_change_resets (st st' : DirectoryState)
    (ev confirm : KeyPress) (w w' : World FS) :
  key_is confirm "return" = true ->
  handleDirectory_key basePath st ev w = (w', Returned (Continue st')) ->
  currentPath st' <> currentPath st ->
  currentIndex st' = 0 /\ mode st' = Browsing
  /\ handleDirectory_key basePath st' confirm w'
     = (w', Returned (Resolve (currentPath st'))).
Proof.
  intros Hc Hstep Hne.
  assert (Htop : forall p w0 w1 (r : Step DirectoryState string),
            (let* _ := render basePath p 0 in
             ret (Continue (mkDirectory p 0 Browsing))) w0
            = (w1, Returned r) ->
            w1 = w0 /\ r = Continue (mkDirectory p 0 Browsing)
            /\ handleDirectory_key basePath (mkDirectory p 0 Browsing) confirm w0
               = (w0, Returned (Resolve p))).
  { intros p w0 w1 r Hr. unfold bind in Hr.
    destruct (render basePath p 0 w0) as [w2 [[]|e]] eqn:Hrender;
      [|discriminate].
    destruct (render_inv _ _ _ _ _ Hrender) as [-> [choices Hch]].
    injection Hr as <- <-. split; [reflexivity | split; [reflexivity|]].
    apply (handleDirectory_select basePath _ _ _ _ _ Hch Hc).
    apply (getChoices_head basePath _ _ _ Hch). }
  destruct st as [p i m]. cbn [currentPath] in Hne.
  destruct m as [|folderName]; cbn [handleDirectory_key mode] in Hstep.
  - unfold keyPressHandler in Hstep. cbn [currentPath currentIndex] in Hstep.
    unfold bind at 1 in Hstep.
    destruct (getChoices_listing p w) as [[choices Hch]|[e [Hch _]]];
      rewrite Hch in Hstep; [|discriminate].
    destruct (key_is ev "up").
    { unfold bind in Hstep. rewrite (render_returns _ _ _ _ _ Hch) in Hstep.
      injection Hstep as <- <-. contradiction. }
    destruct (key_is ev "down").
    { unfold bind in Hstep. rewrite (render_returns _ _ _ _ _ Hch) in Hstep.
      injection Hstep as <- <-. contradiction. }
    destruct (key_is ev "space").
    { injection Hstep as <- <-. contradiction. }
    destruct (key_is ev "return").
    { destruct (js_index choices i) as [c|]; [|discriminate].
      destruct (String.eqb c SELECT_THIS_PATH); [discriminate|].
      destruct (String.eqb c SELECT_BACK_PATH);
        destruct (Htop _ _ _ _ Hstep) as (-> & Hst & Hsel);
        injection Hst as ->; cbn [currentIndex mode currentPath]; auto. }
    destruct (key_is ev "backspace").
    { destruct (negb (String.eqb p (basePath_or_dot basePath))).
      - destruct (Htop _ _ _ _ Hstep) as (-> & Hst & Hsel).
        injection Hst as ->. cbn [currentIndex mode currentPath]. auto.
      - injection Hstep as <- <-. contradiction. }
    injection Hstep as <- <-. contradiction.
  - unfold namingHandler in Hstep. cbn [currentPath currentIndex] in Hstep.
    destruct (handleInput_key (input_defaultValue None) folderName ev)
      as [folderName'|name].
    { injection Hstep as <- <-. contradiction. }
    unfold bind at 1 in Hstep.
    destruct (createNewFolder_named_cases p name w)
      as (w1 & p' & ok & Heq & Hfalse & _).
    rewrite Heq in Hstep. destruct ok.
    + destruct (Htop _ _ _ _ Hstep) as (-> & Hst & Hsel).
      injection Hst as ->. cbn [currentIndex mode currentPath]. auto.
    + rewrite (Hfalse eq_refl) in Hstep. unfold bind in Hstep.
      destruct (render basePath p i w1) as [w2 [[]|e]]; [|discriminate].
      injection Hstep as <- <-. contradiction.
Qed.

End BrowserRuns.

Lemma handleDirectory_browse_only_witness :
  Forall (fun ev => key_is ev "space" = false)
    [KeyDown; KeyReturn; KeyDown; KeyDown; KeyReturn; KeyBackspace]
  /\ fst (handleDirectory (Some ".")
            [KeyDown; KeyReturn; KeyDown; KeyDown; KeyReturn; KeyBackspace]
            sample_world) = sample_world.
Proof.
  assert (Hns : Forall (fun ev => key_is ev "space" = false)
                  [KeyDown; KeyReturn; KeyDown; KeyDown; KeyReturn; KeyBackspace])
    by (repeat constructor).
  split; [exact Hns|].
  exact (proj1 (handleDirectory_browse_only (Some ".") _ sample_world Hns)).
Defined.

Lemma handleDirectory_path_change_resets_witness :
  (key_is KeyReturn "return" = true
   /\ handleDirectory_key (Some ".") (mkDirectory "." 1 Browsing) KeyReturn
        sample_world
      = (sample_world, Returned (Continue (mkDirectory "foo" 0 Browsing)))
   /\ "foo" <> ".")
  /\ handleDirectory_key (Some ".") (mkDirectory "foo" 0 Browsing) KeyReturn
       sample_world
     = (sample_world, Returned (Resolve "foo")).
Proof.
  assert (Hstep : handleDirectory_key (Some ".") (mkDirectory "." 1 Browsing)
                    KeyReturn sample_world
                  = (sample_world,
                     Returned (Continue (mkDirectory "foo" 0 Browsing))))
    by (vm_compute; reflexivity).
  assert (Hne : "foo" <> ".") by discriminate.
  split; [split; [reflexivity | split; [exact Hstep | exact Hne]]|].
  exact (proj2 (proj2 (handleDirectory_path_change_resets (Some ".")
           (mkDirectory "." 1 Browsing) (mkDirectory "foo" 0 Browsing)
           KeyReturn KeyReturn sample_world sample_world eq_refl Hstep Hne))).
Defined.

(** ** Creating a folder from the browser *)

Section CreateFolder.
Context {FS : Type} `{FileSystem FS}.
Variable basePath : option string.

(** Character keys while the nested prompt is open fill its buffer and
    touch nothing else. *)
Lemma run_directory_naming_typed p i folderName evs strs (w : World FS) :
  Forall2 is_character_key evs strs ->
  run_directory basePath (mkDirectory p i (Naming folderName)) evs w
  = (w, DirPending
          (mkDirectory p i
             (Naming (mkInput (fold_left String.append strs (input folderName))
                        (match strs with
                         | [] => hasInput folderName
                         | _ => true
                         end))))).
Proof.
  intros Hty. revert folderName.
  induction Hty as [|ev s evs strs Hev Hty IH]; intros folderName.
  - cbn. now destruct folderName.
  - cbn [run_directory fold_left handleDirectory_key mode].
    rewrite (character_key_not_interrupt ev s Hev).
    unfold namingHandler. rewrite (handleInput_character _ _ _ _ Hev).
    cbn [currentPath currentIndex ret]. unfold ret. rewrite IH.
    cbn [input hasInput]. now destruct strs.
Qed.

(** X21. The create-folder key, a name typed, confirm: the browser is back
    in browsing mode with what [createNewFolder] decided for that name; it
    stands in the new folder with the cursor on the first entry when the
    folder was created, and where it stood otherwise. *)
Theorem handleDirectory_create_folder_flow (p p' : string) (i : Z) (ok : bool)
    (w w' : World FS) (choices choices' : list string)
    (space confirm : KeyPress) (evs : list KeyPress) (strs : list string) :
  key_is space "space" = true ->
  key_is confirm "return" = true ->
  Forall2 is_character_key evs strs ->
  getChoices basePath p w = (w, Returned choices) ->
  createNewFolder_named p (fold_left String.append strs EmptyString) w
  = (w', Returned (p', ok)) ->
  getChoices basePath p' w' = (w', Returned choices') ->
  run_directory basePath (mkDirectory p i Browsing)
    ([space] ++ evs ++ [confirm])%list w
  = (w', DirPending (mkDirectory p' (if ok then 0 else i) Browsing)).
Proof.
  intros Hs Hc Hty Hch Hcreate Hch'.
  cbn [app run_directory]. rewrite (not_interrupt space "space" Hs) by discriminate.
  cbn [handleDirectory_key mode]. unfold keyPressHandler, bind at 1.
  cbn [currentPath currentIndex]. rewrite Hch. key_cases. unfold ret at 1.
  rewrite (run_directory_app basePath _ _ _ _ _ _
             (run_directory_naming_typed p i _ evs strs w Hty)).
  cbn [run_directory input]. rewrite (not_interrupt confirm "return" Hc) by discriminate.
  cbn [handleDirectory_key mode]. unfold namingHandler.
  rewrite handleInput_return by exact Hc. cbn [input input_defaultValue].
  assert (Hor : forall s, js_or s EmptyString = s).
  { intros s. unfold js_or. now destruct (String.eqb_spec s EmptyString). }
  rewrite Hor. unfold bind at 1. cbn [currentPath currentIndex].
  rewrite Hcreate. unfold bind. rewrite (render_returns _ _ _ _ _ Hch').
  reflexivity.
Qed.

End CreateFolder.

Lemma handleDirectory_create_folder_flow_witness :
  (key_is KeySpace "space" = true /\ key_is KeyReturn "return" = true
   /\ Forall2 is_character_key [typed "n" "n"; typed "e" "e"; typed "w" "w"]
        ["n"; "e"; "w"])
  /\ run_directory (Some ".") (mkDirectory "foo" 2 Browsing)
       [KeySpace; typed "n" "n"; typed "e" "e"; typed "w" "w"; KeyReturn]
       sample_world
     = (mkWorld (<["foo/new" := MemFS.Dir]> MemFS.sample) [],
        DirPending (mkDirectory "foo/new" 0 Browsing)).
Proof.
  assert (Hty : Forall2 is_character_key
                  [typed "n" "n"; typed "e" "e"; typed "w" "w"]
                  ["n"; "e"; "w"])
    by (repeat constructor; discriminate).
  split; [split; [reflexivity | split; [reflexivity | exact Hty]]|].
  apply (handleDirectory_create_folder_flow (Some ".") "foo" "foo/new" 2 true
           sample_world _
           [SELECT_THIS_PATH; SELECT_BACK_PATH; "bar"]
           [SELECT_THIS_PATH; SELECT_BACK_PATH]
           KeySpace KeyReturn _ _ eq_refl eq_refl Hty);
    vm_compute; reflexivity.
Defined.

(** ** The file helpers, called twice *)

Section HelperFacts.
Context {FS : Type} `{FileSystem FS}.

(** X22. In a file system where a directory that [mkdirSync] created
    exists afterwards, the folder helper does not create twice: a second
    call with the same arguments, right after a call that returned the new
    path, returns false, logs that the folder exists and leaves the file
    system as the first call left it. *)
Theorem makeFolder_twice (currentPath_ folderName newPath : string)
    (w w1 : World FS) :
  (forall fs0 p fs1, mkdirSync fs0 p = (fs1, Returned tt) ->
                     existsSync fs1 p = true) ->
  makeFolder currentPath_ folderName w = (w1, Returned (MFPath newPath)) ->
  newPath = Path.join currentPath_ folderName
  /\ errors w1 = errors w
  /\ makeFolder currentPath_ folderName w1
     = (mkWorld (fs w1)
          (errors w1 ++ ["[Snpy-Error] Folder already exists!"])%list,
        Returned MFFalse).
Proof.
  intros Hlaw Hfirst.
  unfold makeFolder, bind, io_existsSync, io_mkdirSync, logError, ret in Hfirst.
  destruct (existsSync (fs w) (Path.join currentPath_ folderName));
    [discriminate|].
  destruct (mkdirSync (fs w) (Path.join currentPath_ folderName))
    as [fs1 [[]|e]] eqn:Hmk; [|discriminate].
  injection Hfirst as <- <-. cbn [fs errors].
  split; [reflexivity | split; [reflexivity|]].
  unfold makeFolder, bind, io_existsSync, logError, ret. cbn [fs errors].
  now rewrite (Hlaw _ _ _ Hmk).
Qed.

(** X23. The template helper never throws. When nothing exists at the
    target it calls [writeFileSync] once and the file system is the one
    that call leaves; it logs one line exactly when the write throws, and
    nothing when the write returns. *)
Theorem makeTemplate_reports (dir file_name code : string) (w : World FS) :
  exists w',
    makeTemplate dir file_name code w = (w', Returned tt)
    /\ (existsSync (fs w) (Path.join dir file_name) = false ->
        fs w' = fst (writeFileSync (fs w) (Path.join dir file_name) code)
        /\ match snd (writeFileSync (fs w) (Path.join dir file_name) code) with
           | Returned _ => errors w' = errors w
           | Thrown _ =>
               errors w'
               = (errors w
                  ++ [String.append "[Snpy-Error] Failed to write file: "
                        (Path.join dir file_name)])%list
           end).
Proof.
  unfold makeTemplate, bind, try_catch, io_existsSync, io_writeFileSync,
    logError, ret.
  destruct (existsSync (fs w) (Path.join dir file_name)).
  - eexists. split; [reflexivity | discriminate].
  - destruct (writeFileSync (fs w) (Path.join dir file_name) code)
      as [fs' [[]|e]]; eexists; (split; [reflexivity | intros _; now split]).
Qed.

End HelperFacts.

(** A directory made in memory is there afterwards. *)
Lemma mem_mkdirSync_exists (m : MemFS.t) (p : string) (m' : MemFS.t) :
  MemFS.mem_mkdirSync m p = (m', Returned tt) ->
  MemFS.mem_existsSync m' p = true.
Proof.
  unfold MemFS.mem_mkdirSync, MemFS.mem_existsSync.
  destruct (m !! Path.normalize p); [discriminate|].
  destruct (m !! Path.dirname (Path.normalize p)) as [[|c]|]; try discriminate.
  intros Hm. injection Hm as <-. now rewrite lookup_insert_eq.
Qed.

Lemma makeFolder_twice_witness :
  makeFolder "foo" "new" sample_world
  = (mkWorld (<["foo/new" := MemFS.Dir]> MemFS.sample) [],
     Returned (MFPath "foo/new"))
  /\ makeFolder "foo" "new"
       (mkWorld (<["foo/new" := MemFS.Dir]> MemFS.sample) [])
     = (mkWorld (<["foo/new" := MemFS.Dir]> MemFS.sample)
          ["[Snpy-Error] Folder already exists!"],
        Returned MFFalse).
Proof.
  assert (Hfirst : makeFolder "foo" "new" sample_world
                   = (mkWorld (<["foo/new" := MemFS.Dir]> MemFS.sample) [],
                      Returned (MFPath "foo/new")))
    by (vm_compute; reflexivity).
  split; [exact Hfirst|].
  exact (proj2 (proj2 (makeFolder_twice "foo" "new" "foo/new" sample_world _
                         mem_mkdirSync_exists Hfirst))).
Defined.

(** ** The key listener of the class [IO] *)

Section ListenerFacts.
Context {H : Type}.
Implicit Types (io : IOClass.t (H := H)) (calls : list (IOClass.Call (H := H))).

Lemma removeListener_single id (handler : H) :
  IOClass.removeListener id
    [IOClass.ReadlineListener; IOClass.Wrapper id handler]
  = [IOClass.ReadlineListener].
Proof.
  unfold IOClass.removeListener. cbn. now rewrite Nat.eqb_refl.
Qed.

Lemma removeKeyPressHandler_one_listener io h :
  one_listener io h -> one_listener (IOClass.removeKeyPressHandler io) None.
Proof.
  unfold IOClass.removeKeyPressHandler. destruct h as [handler|]; cbn.
  - intros (id & Hk & Hl). rewrite Hk. cbn. rewrite Hl.
    now rewrite removeListener_single.
  - intros [Hk Hl]. rewrite Hk. now split.
Qed.

Lemma call_one_listener io h c :
  one_listener io h ->
  one_listener (IOClass.call io c)
    match c with
    | IOClass.CallOnKeyPress handler => Some handler
    | IOClass.CallRemoveKeyPressHandler => None
    | IOClass.CallSetRawMode _ => h
    end.
Proof.
  intros Hinv. destruct c as [handler| |m]; cbn [IOClass.call].
  - pose proof (removeKeyPressHandler_one_listener io h Hinv) as [Hk Hl].
    unfold IOClass.onKeyPress. cbn. rewrite Hl. eauto.
  - eapply removeKeyPressHandler_one_listener. exact Hinv.
  - destruct h; exact Hinv.
Qed.

Lemma calls_one_listener calls io h :
  one_listener io h ->
  one_listener (fold_left IOClass.call calls io)
    (fold_left (fun h c => match c with
                           | IOClass.CallOnKeyPress handler => Some handler
                           | IOClass.CallRemoveKeyPressHandler => None
                           | IOClass.CallSetRawMode _ => h
                           end) calls h).
Proof.
  revert io h. induction calls as [|c calls IH]; intros io h Hinv; cbn.
  - exact Hinv.
  - apply IH. now apply call_one_listener.
Qed.

(** X24. However the prompts install and remove key handlers and switch the
    raw mode on a fresh [IO], the keypress event of stdin has the listener
    that readline put there when the [IO] was made, and after it one
    listener of the class at most: the wrapper of the handler of the last
    [onKeyPress] that no [removeKeyPressHandler] followed. A key other than
    ctrl-c reaches that handler and no other handler of the prompts; with
    none installed it reaches readline only. *)
Theorem IO_single_key_handler calls (ev : KeyPress) :
  key_ctrl ev && key_is ev "c" = false ->
  let io := fold_left IOClass.call calls IOClass.new in
  match IOClass.installed calls with
  | Some handler =>
      exists id,
        IOClass.keyPressHandler io = Some id
        /\ IOClass.stdin_listeners io
           = [IOClass.ReadlineListener; IOClass.Wrapper id handler]
  | None =>
      IOClass.keyPressHandler io = None
      /\ IOClass.stdin_listeners io = [IOClass.ReadlineListener]
  end
  /\ IOClass.emit_keypress io ev
     = Some match IOClass.installed calls with
            | Some handler => [handler]
            | None => []
            end.
Proof.
  intros Hev io.
  pose proof (calls_one_listener calls IOClass.new None
                (conj eq_refl eq_refl)) as Hinv.
  fold io in Hinv.
  change (fold_left _ calls None) with (IOClass.installed calls) in Hinv.
  unfold one_listener in Hinv. split; [exact Hinv|].
  unfold IOClass.emit_keypress. rewrite Hev.
  destruct (IOClass.installed calls) as [handler|].
  - destruct Hinv as (id & _ & ->). reflexivity.
  - destruct Hinv as [_ ->]. reflexivity.
Qed.

End ListenerFacts.

Lemma IO_single_key_handler_witness :
  key_ctrl KeyDown && key_is KeyDown "c" = false
  /\ IOClass.stdin_listeners
       (fold_left IOClass.call
          [IOClass.CallOnKeyPress "browse"; IOClass.CallRemoveKeyPressHandler;
           IOClass.CallSetRawMode false; IOClass.CallOnKeyPress "name";
           IOClass.CallSetRawMode true; IOClass.CallOnKeyPress "browse"]
          IOClass.new)
     = [IOClass.ReadlineListener; IOClass.Wrapper 2%nat "browse"]
  /\ IOClass.emit_keypress
       (fold_left IOClass.call
          [IOClass.CallOnKeyPress "browse"; IOClass.CallRemoveKeyPressHandler;
           IOClass.CallSetRawMode false; IOClass.CallOnKeyPress "name";
           IOClass.CallSetRawMode true; IOClass.CallOnKeyPress "browse"]
          IOClass.new)
       KeyDown
     = Some ["browse"].
Proof.
  split; [reflexivity|].
  split; [reflexivity|].
  exact (proj2 (IO_single_key_handler
                  [IOClass.CallOnKeyPress "browse";
                   IOClass.CallRemoveKeyPressHandler;
                   IOClass.CallSetRawMode false; IOClass.CallOnKeyPress "name";
                   IOClass.CallSetRawMode true; IOClass.CallOnKeyPress "browse"]
                  KeyDown eq_refl)).
Defined.

(** ** What [render] draws *)

Lemma drawn_rows_app a b : drawn_rows (a ++ b) = (drawn_rows a ++ drawn_rows b)%list.
Proof. unfold drawn_rows. apply omap_app. Qed.

Lemma drawn_hints_app a b :
  drawn_hints (a ++ b) = (drawn_hints a ++ drawn_hints b)%list.
Proof. unfold drawn_hints. apply omap_app. Qed.

Section ForEach.
Variables (highlight : Z -> bool) (prefix : Z -> string).

Local Abbreviation row :=
  (fun (choice : string) (i : Z) =>
     [IOchoice choice (highlight i) (prefix i); IOnewLine]).

Lemma drawn_rows_forEach (a : list string) (k : Z) (j : nat) :
  drawn_rows (forEach_from row a k) !! j
  = (fun c => (c, highlight (k + Z.of_nat j), prefix (k + Z.of_nat j)))
      <$> a !! j.
Proof.
  revert k j. induction a as [|x a IH]; intros k j; cbn.
  - now rewrite !lookup_nil.
  - destruct j as [|j]; cbn.
    + now rewrite Z.add_0_r.
    + change (omap _ (forEach_from row a (k + 1)))
        with (drawn_rows (forEach_from row a (k + 1))).
      rewrite IH.
      replace (k + 1 + Z.of_nat j) with (k + Z.of_nat (Datatypes.S j)) by lia.
      reflexivity.
Qed.

Lemma drawn_rows_forEach_length (a : list string) (k : Z) :
  List.length (drawn_rows (forEach_from row a k)) = List.length a.
Proof.
  revert k. induction a as [|x a IH]; intros k; cbn; [reflexivity|].
  f_equal. apply IH.
Qed.

Lemma drawn_hints_forEach (a : list string) (k : Z) :
  drawn_hints (forEach_from row a k) = [].
Proof.
  revert k. induction a as [|x a IH]; intros k; cbn; [reflexivity | apply IH].
Qed.

End ForEach.

Lemma js_slice_lookup_nat {A : Type} (a : list A) (s e : Z) (j : nat) :
  0 <= s ->
  js_slice a s e !! j
  = if (Z.of_nat j <? e - s) then js_index a (s + Z.of_nat j) else None.
Proof.
  intros Hs. unfold js_slice, js_index.
  destruct (Z.ltb_spec (Z.of_nat j) (e - s)).
  - destruct (Z.ltb_spec (s + Z.of_nat j) 0); [lia|].
    rewrite lookup_take_lt by lia. rewrite lookup_drop. f_equal. lia.
  - apply lookup_take_ge. lia.
Qed.

Lemma render_selectable_rows_eq type message choices currentIndex :
  drawn_rows (render_selectable type message choices currentIndex)
  = drawn_rows
      (forEach_from
         (fun choice i =>
            [IOchoice choice
               (start (getVisibleRange_default choices currentIndex) + i
                =? currentIndex)
               (if String.eqb type "nlist"
                then String.append
                       (js_toString
                          (start (getVisibleRange_default choices currentIndex)
                           + i + 1)) ") "
                else EmptyString);
             IOnewLine])
         (visibleChoices choices currentIndex) 0).
Proof.
  unfold render_selectable, visibleChoices. cbv zeta.
  rewrite !drawn_rows_app.
  destruct (showTop (getVisibleRange_default choices currentIndex));
    destruct (showBottom (getVisibleRange_default choices currentIndex));
    cbn; now rewrite ?app_nil_r.
Qed.

(** X25. What a list prompt draws when the cursor is on an entry: one row
    for each entry of the window, top to bottom; each row shows the label
    of its entry; exactly the row of the entry under the cursor is
    highlighted; and in a numbered list each row is prefixed with the
    position of its entry in the whole list, counted from one. *)
Theorem render_selectable_rows (type message : string)
    (choices : list string) (currentIndex : Z) :
  0 <= currentIndex < js_length choices ->
  let r := getVisibleRange_default choices currentIndex in
  let rows := drawn_rows (render_selectable type message choices currentIndex) in
  js_length rows = Z.min (js_length choices) MAX_VISIBLE_ITEMS
  /\ (forall (j : nat) choice isSelected prefix,
         rows !! j = Some (choice, isSelected, prefix) ->
         js_index choices (start r + Z.of_nat j) = Some choice
         /\ (isSelected = true <-> start r + Z.of_nat j = currentIndex)
         /\ prefix = if String.eqb type "nlist"
                     then String.append
                            (js_toString (start r + Z.of_nat j + 1)) ") "
                     else EmptyString)
  /\ exists choice prefix,
       rows !! Z.to_nat (currentIndex - start r) = Some (choice, true, prefix)
       /\ js_index choices currentIndex = Some choice.
Proof.
  intros Hi r rows.
  pose proof (getVisibleRange_window choices currentIndex MAX_VISIBLE_ITEMS
                ltac:(unfold MAX_VISIBLE_ITEMS; lia) Hi) as Hw.
  cbv zeta in Hw.
  change (getVisibleRange choices currentIndex MAX_VISIBLE_ITEMS) with r in Hw.
  pose proof (visibleChoices_length choices currentIndex Hi) as Hlen.
  subst rows. rewrite render_selectable_rows_eq. fold r.
  assert (Hrow : forall j : nat,
    drawn_rows
      (forEach_from
         (fun choice i =>
            [IOchoice choice (start r + i =? currentIndex)
               (if String.eqb type "nlist"
                then String.append (js_toString (start r + i + 1)) ") "
                else EmptyString);
             IOnewLine])
         (visibleChoices choices currentIndex) 0) !! j
    = (fun c => (c, (start r + Z.of_nat j =? currentIndex),
                 if String.eqb type "nlist"
                 then String.append (js_toString (start r + Z.of_nat j + 1)) ") "
                 else EmptyString))
        <$> (if Z.of_nat j <? end_ r - start r
             then js_index choices (start r + Z.of_nat j) else None)).
  { intros j.
    rewrite (drawn_rows_forEach (fun i => start r + i =? currentIndex)
               (fun i => if String.eqb type "nlist"
                         then String.append (js_toString (start r + i + 1)) ") "
                         else EmptyString)).
    unfold visibleChoices. cbv zeta. fold r.
    rewrite js_slice_lookup_nat by lia. reflexivity. }
  split; [|split].
  - unfold js_length at 1.
    rewrite (drawn_rows_forEach_length (fun i => start r + i =? currentIndex)
               (fun i => if String.eqb type "nlist"
                         then String.append (js_toString (start r + i + 1)) ") "
                         else EmptyString)).
    exact Hlen.
  - intros j choice isSelected prefix Hj. rewrite Hrow in Hj.
    destruct (Z.of_nat j <? end_ r - start r); [|discriminate].
    destruct (js_index choices (start r + Z.of_nat j)) as [c|]; [|discriminate].
    cbn in Hj. injection Hj as <- <- <-.
    split; [reflexivity | split; [apply Z.eqb_eq | reflexivity]].
  - destruct (js_index_in_range choices currentIndex Hi) as (c & Hc & _ & _).
    exists c. eexists. split; [|exact Hc].
    rewrite Hrow. rewrite Z2Nat.id by lia.
    destruct (Z.ltb_spec (currentIndex - start r) (end_ r - start r)); [|lia].
    replace (start r + (currentIndex - start r)) with currentIndex by lia.
    rewrite Hc. cbn. now rewrite Z.eqb_refl.
Qed.

Lemma render_selectable_rows_witness :
  0 <= 11 < js_length twelve_items
  /\ exists choice prefix,
       drawn_rows (render_selectable "nlist" "Pick" twelve_items 11)
         !! Z.to_nat (11 - 2) = Some (choice, true, prefix)
       /\ js_index twelve_items 11 = Some choice.
Proof.
  assert (Hi : 0 <= 11 < js_length twelve_items)
    by (vm_compute; split; [discriminate | reflexivity]).
  split; [exact Hi|].
  exact (proj2 (proj2 (render_selectable_rows "nlist" "Pick" twelve_items 11 Hi))).
Defined.

Lemma render_checkbox_rows_eq message choices st :
  drawn_rows (render_checkbox message choices st)
  = drawn_rows
      (forEach_from
         (fun choice i =>
            [IOchoice choice
               (start (getVisibleRange_default choices (cb_currentIndex st)) + i
                =? cb_currentIndex st)
               (String.append
                  (if JSSet.has (cb_selectedItems st)
                        (start (getVisibleRange_default choices
                                  (cb_currentIndex st)) + i)
                   then MARK_SELECTED else MARK_UNSELECTED) "  ");
             IOnewLine])
         (visibleChoices choices (cb_currentIndex st)) 0).
Proof.
  unfold render_checkbox, visibleChoices. cbv zeta.
  rewrite !drawn_rows_app.
  destruct (showTop (getVisibleRange_default choices (cb_currentIndex st)));
    destruct (showBottom (getVisibleRange_default choices (cb_currentIndex st)));
    cbn; now rewrite ?app_nil_r.
Qed.

(** X26. What a multi-select draws: every row of the window shows the
    label of its entry, carries the filled mark exactly when the index of
    the entry is in the selection, and is highlighted exactly when the
    entry is the one under the cursor. *)
Theorem render_checkbox_rows (message : string) (choices : list string)
    (st : CheckboxState) (j : nat) (choice prefix : string)
    (isSelected : bool) :
  0 <= cb_currentIndex st < js_length choices ->
  drawn_rows (render_checkbox message choices st) !! j
  = Some (choice, isSelected, prefix) ->
  let index := start (getVisibleRange_default choices (cb_currentIndex st))
               + Z.of_nat j in
  js_index choices index = Some choice
  /\ (prefix = String.append MARK_SELECTED "  "
      <-> JSSet.has (cb_selectedItems st) index = true)
  /\ (prefix = String.append MARK_UNSELECTED "  "
      <-> JSSet.has (cb_selectedItems st) index = false)
  /\ (isSelected = true <-> index = cb_currentIndex st).
Proof.
  intros Hi Hj index.
  pose proof (getVisibleRange_window choices (cb_currentIndex st)
                MAX_VISIBLE_ITEMS ltac:(unfold MAX_VISIBLE_ITEMS; lia) Hi) as Hw.
  cbv zeta in Hw.
  rewrite render_checkbox_rows_eq in Hj.
  set (r := getVisibleRange_default choices (cb_currentIndex st)) in *.
  change (getVisibleRange choices (cb_currentIndex st) MAX_VISIBLE_ITEMS)
    with r in Hw.
  rewrite (drawn_rows_forEach (fun i => start r + i =? cb_currentIndex st)
             (fun i => String.append
                         (if JSSet.has (cb_selectedItems st) (start r + i)
                          then MARK_SELECTED else MARK_UNSELECTED) "  ")) in Hj.
  unfold visibleChoices in Hj. cbv zeta in Hj. fold r in Hj.
  rewrite js_slice_lookup_nat in Hj by lia.
  destruct (Z.of_nat j <? end_ r - start r); [|discriminate].
  replace (0 + Z.of_nat j) with (Z.of_nat j) in Hj by lia.
  fold index in Hj.
  destruct (js_index choices index) as [c|]; [|discriminate].
  cbn in Hj. injection Hj as <- <- <-.
  split; [reflexivity | split; [|split]].
  - destruct (JSSet.has (cb_selectedItems st) index); split; intros Hp;
      first [reflexivity | discriminate].
  - destruct (JSSet.has (cb_selectedItems st) index); split; intros Hp;
      first [reflexivity | discriminate].
  - apply Z.eqb_eq.
Qed.

Lemma render_checkbox_rows_witness :
  (0 <= cb_currentIndex (mkCheckbox 1 [2]) < js_length ["A"; "B"; "C"]
   /\ drawn_rows (render_checkbox "Pick" ["A"; "B"; "C"] (mkCheckbox 1 [2]))
        !! 2%nat
      = Some ("C", false, String.append MARK_SELECTED "  "))
  /\ JSSet.has [2] 2 = true.
Proof.
  assert (Hi : 0 <= cb_currentIndex (mkCheckbox 1 [2]) < js_length ["A"; "B"; "C"])
    by (vm_compute; split; [discriminate | reflexivity]).
  assert (Hj : drawn_rows (render_checkbox "Pick" ["A"; "B"; "C"]
                             (mkCheckbox 1 [2])) !! 2%nat
               = Some ("C", false, String.append MARK_SELECTED "  "))
    by (vm_compute; reflexivity).
  split; [split; assumption|].
  exact (proj1 (proj1 (proj2 (render_checkbox_rows "Pick" ["A"; "B"; "C"]
                  (mkCheckbox 1 [2]) 2 "C" _ false Hi Hj))) eq_refl).
Defined.

(** X27. The scroll marks of a list prompt: the up mark is drawn exactly
    when the list has more than ten entries and more than five precede the
    cursor; the down mark exactly when it has more than ten and more than
    four follow the cursor. A list of ten entries or fewer never shows a
    mark. *)
Theorem render_selectable_hints (type message : string)
    (choices : list string) (currentIndex : Z) :
  0 <= currentIndex < js_length choices ->
  drawn_hints (render_selectable type message choices currentIndex)
  = ((if (10 <? js_length choices) && (5 <? currentIndex)
      then [HINT_UP] else [])
     ++ (if (10 <? js_length choices) && (currentIndex + 5 <? js_length choices)
         then [HINT_DOWN] else []))%list.
Proof.
  intros Hi.
  destruct (getVisibleRange_closed_form choices currentIndex MAX_VISIBLE_ITEMS
              ltac:(unfold MAX_VISIBLE_ITEMS; lia) Hi) as [Hs He].
  pose proof (getVisibleRange_indicators choices currentIndex MAX_VISIBLE_ITEMS)
    as [Ht Hb]. cbv zeta in Ht, Hb.
  unfold render_selectable. cbv zeta. unfold getVisibleRange_default.
  set (r := getVisibleRange choices currentIndex MAX_VISIBLE_ITEMS) in *.
  unfold MAX_VISIBLE_ITEMS in Hs, He. change (10 / 2) with 5 in Hs.
  rewrite !drawn_hints_app.
  rewrite (drawn_hints_forEach (fun i => start r + i =? currentIndex)
             (fun i => if String.eqb type "nlist"
                       then String.append (js_toString (start r + i + 1)) ") "
                       else EmptyString)).
  assert (Htop : showTop r = (10 <? js_length choices) && (5 <? currentIndex)).
  { rewrite Ht.
    destruct (Z.ltb_spec 0 (start r)), (Z.ltb_spec 10 (js_length choices)),
      (Z.ltb_spec 5 currentIndex); cbn; try reflexivity; lia. }
  assert (Hbot : showBottom r
                 = (10 <? js_length choices)
                   && (currentIndex + 5 <? js_length choices)).
  { rewrite Hb.
    destruct (Z.ltb_spec (end_ r) (js_length choices)),
      (Z.ltb_spec 10 (js_length choices)),
      (Z.ltb_spec (currentIndex + 5) (js_length choices));
      cbn; try reflexivity; lia. }
  rewrite Htop, Hbot.
  destruct ((10 <? js_length choices) && (5 <? currentIndex));
    destruct ((10 <? js_length choices)
              && (currentIndex + 5 <? js_length choices)); reflexivity.
Qed.

Lemma render_selectable_hints_witness :
  0 <= 6 < js_length twelve_items
  /\ drawn_hints (render_selectable "list" "Pick" twelve_items 6)
     = [HINT_UP; HINT_DOWN].
Proof.
  assert (Hi : 0 <= 6 < js_length twelve_items)
    by (vm_compute; split; [discriminate | reflexivity]).
  split; [exact Hi|].
  exact (render_selectable_hints "list" "Pick" twelve_items 6 Hi).
Defined.

(** ** Paths of plain names *)

Lemma segments_no_slash s : has_slash s = false -> Path.segments s = [s].
Proof.
  induction s as [|c s IH]; cbn; [reflexivity|].
  intros Hs. apply orb_false_iff in Hs as [Hc Hs].
  rewrite Hc, (IH Hs). reflexivity.
Qed.

Lemma ends_with_slash_no_slash s :
  has_slash s = false -> Path.ends_with_slash s = false.
Proof.
  induction s as [|c s IH]; cbn; [reflexivity|].
  intros Hs. apply orb_false_iff in Hs as [Hc Hs].
  destruct s; [exact Hc | now apply IH].
Qed.

Lemma get_no_slash s n c :
  has_slash s = false -> String.get n s = Some c ->
  Ascii.eqb c Path.slash = false.
Proof.
  revert n. induction s as [|a s IH]; intros n Hs Hg; cbn in *; [discriminate|].
  apply orb_false_iff in Hs as [Ha Hs].
  destruct n as [|n]; [now injection Hg as <- | now apply (IH n)].
Qed.

Lemma dirname_scan_no_slash s i m :
  has_slash s = false -> Path.dirname_scan s i m = None.
Proof.
  intros Hs. revert m. induction i as [|i IH]; intros m; cbn; [reflexivity|].
  destruct (String.get (Datatypes.S i) s) as [c|] eqn:Hg; [|apply IH].
  rewrite (get_no_slash _ _ _ Hs Hg). apply IH.
Qed.

Lemma join_dot_plain name : plain_name name -> Path.join "." name = name.
Proof.
  intros (Hne & Hs & Hd & Hdd). unfold Path.join.
  apply String.eqb_neq in Hne, Hd, Hdd.
  change (String.eqb "." EmptyString) with false. cbv iota. rewrite Hne.
  change (String.append "." (String "/" name)) with (String "." (String "/" name)).
  unfold Path.normalize.
  change (String.eqb (String "." (String "/" name)) EmptyString) with false.
  cbv iota zeta.
  change (Path.starts_with_slash (String "." (String "/" name))) with false.
  assert (Hend : Path.ends_with_slash (String "." (String "/" name)) = false).
  { cbn. destruct name as [|c name]; [discriminate|].
    now apply (ends_with_slash_no_slash (String c name)). }
  rewrite Hend.
  assert (Hq : Path.normalizeString (String "." (String "/" name)) (negb false)
               = name).
  { unfold Path.normalizeString. cbn [Path.segments].
    change (Ascii.eqb "." Path.slash) with false.
    change (Ascii.eqb "/" Path.slash) with true. cbv iota.
    rewrite (segments_no_slash name Hs). cbn [fold_left].
    unfold Path.push_segment at 2. cbn.
    unfold Path.push_segment. rewrite Hne, Hd, Hdd. cbn.
    reflexivity. }
  rewrite Hq, Hne. reflexivity.
Qed.

Lemma dirname_plain name : plain_name name -> Path.dirname name = ".".
Proof.
  intros (Hne & Hs & _). unfold Path.dirname.
  apply String.eqb_neq in Hne. rewrite Hne.
  rewrite (dirname_scan_no_slash _ _ _ Hs).
  destruct name as [|c name]; [reflexivity|]. cbn in *.
  apply orb_false_iff in Hs as [Hc _]. now rewrite Hc.
Qed.

(** X28. The round trip of the browser holds for every name a listing can
    return: started at [.], confirm on a subdirectory with a plain name,
    then on the go-up marker, then on the select marker, resolves with
    [.], the marker for selecting being the one name that does not
    descend. *)
Theorem directory_round_trip_plain_name {FS : Type} `{FileSystem FS}
    (basePath : option string) (w : World FS) (name : string)
    (dirs dirs' : list string) (k : nat) (down confirm : KeyPress) :
  basePath_or_dot basePath = "." ->
  key_is down "down" = true ->
  key_is confirm "return" = true ->
  plain_name name ->
  name <> SELECT_THIS_PATH ->
  getDirectories "." w = (w, Returned dirs) ->
  dirs !! k = Some name ->
  getDirectories name w = (w, Returned dirs') ->
  handleDirectory basePath (repeat down (Datatypes.S k) ++ [confirm])%list w
  = (w, DirPending (mkDirectory name 0 Browsing))
  /\ handleDirectory basePath
       (repeat down (Datatypes.S k) ++ [confirm; down; confirm; confirm])%list w
     = (w, DirResolved ".").
Proof.
  intros Hbase Hd Hc Hplain Hn1 Hls Hk Hls'.
  pose proof (directory_descend_ascend basePath w name dirs dirs' k down confirm)
    as Hrt.
  cbv zeta in Hrt. rewrite Hbase in Hrt.
  rewrite (join_dot_plain name Hplain) in Hrt.
  destruct Hplain as (Hne & Hs & Hdot & Hdd).
  specialize (Hrt Hd Hc Hn1 Hdd Hdot
                (dirname_plain name (conj Hne (conj Hs (conj Hdot Hdd))))
                Hls Hk Hls').
  destruct Hrt as (H1 & _ & H3). now split.
Qed.

Lemma directory_round_trip_plain_name_witness :
  (basePath_or_dot None = "." /\ key_is KeyDown "down" = true
   /\ key_is KeyReturn "return" = true /\ plain_name "foo"
   /\ "foo" <> SELECT_THIS_PATH
   /\ getDirectories "." sample_world = (sample_world, Returned ["foo"])
   /\ ["foo"] !! 0%nat = Some "foo"
   /\ getDirectories "foo" sample_world = (sample_world, Returned ["bar"]))
  /\ handleDirectory None [KeyDown; KeyReturn; KeyDown; KeyReturn; KeyReturn]
       sample_world
     = (sample_world, DirResolved ".").
Proof.
  assert (Hp : plain_name "foo")
    by (split; [discriminate | split; [reflexivity | split; discriminate]]).
  assert (Hn : "foo" <> SELECT_THIS_PATH) by discriminate.
  assert (H1 : getDirectories "." sample_world
               = (sample_world, Returned ["foo"])) by (vm_compute; reflexivity).
  assert (H2 : getDirectories "foo" sample_world
               = (sample_world, Returned ["bar"])) by (vm_compute; reflexivity).
  split; [repeat split; first [assumption | reflexivity | discriminate]|].
  exact (proj2 (directory_round_trip_plain_name None sample_world "foo"
                  ["foo"] ["bar"] 0 KeyDown KeyReturn eq_refl eq_refl eq_refl
                  Hp Hn H1 eq_refl H2)).
Defined.

(** ** More on the selection *)

(** X29. The toggle key flips the entry under the cursor and no other:
    after a press the index of the cursor is selected exactly when it was
    not before, every other index is selected exactly when it was, the
    cursor has not moved and no index is held twice. *)
Theorem handleCheckbox_space_flips (choices : list string)
    (st : CheckboxState) (space : KeyPress) :
  key_is space "space" = true ->
  exists st',
    handleCheckbox_key choices st space = Continue st'
    /\ cb_currentIndex st' = cb_currentIndex st
    /\ (forall x,
          JSSet.has (cb_selectedItems st') x
          = if x =? cb_currentIndex st
            then negb (JSSet.has (cb_selectedItems st) x)
            else JSSet.has (cb_selectedItems st) x)
    /\ (NoDup (cb_selectedItems st) -> NoDup (cb_selectedItems st')).
Proof.
  intros Hk. eexists. split; [now apply handleCheckbox_space|].
  cbn [cb_currentIndex cb_selectedItems]. split; [reflexivity | split].
  - intros x. rewrite toggle_has.
    destruct (Z.eqb_spec x (cb_currentIndex st)) as [-> |_]; reflexivity.
  - apply toggle_NoDup.
Qed.

Lemma handleCheckbox_space_flips_witness :
  key_is KeySpace "space" = true
  /\ exists st',
       handleCheckbox_key ["A"; "B"; "C"] (mkCheckbox 1 [2; 1]) KeySpace
       = Continue st'
       /\ cb_currentIndex st' = 1.
Proof.
  split; [reflexivity|].
  destruct (handleCheckbox_space_flips ["A"; "B"; "C"] (mkCheckbox 1 [2; 1])
              KeySpace eq_refl) as (st' & Hstep & Hidx & _).
  exists st'. split; [exact Hstep | exact Hidx].
Defined.

Lemma run_checkbox_resolved_inv choices st evs labels :
  checkbox_inv (js_length choices) st ->
  run_keys (handleCheckbox_key choices) st evs = Resolved labels ->
  exists st',
    checkbox_inv (js_length choices) st'
    /\ labels = map (fun index => js_index_or_empty choices index)
                    (js_sort (cb_selectedItems st')).
Proof.
  revert st. induction evs as [|ev evs IH]; intros st Hinv Hrun; cbn in Hrun.
  - discriminate.
  - destruct (key_ctrl ev && key_is ev "c"); [discriminate|].
    destruct (handleCheckbox_key choices st ev) as [st1|r] eqn:Hstep.
    + apply (IH st1); [|exact Hrun].
      eapply handleCheckbox_key_inv; eassumption.
    + injection Hrun as <-. exists st. split; [exact Hinv|].
      unfold handleCheckbox_key in Hstep.
      destruct (key_is ev "up"); [discriminate|].
      destruct (key_is ev "down"); [discriminate|].
      destruct (key_is ev "space"); [discriminate|].
      destruct (key_is ev "return"); [|discriminate].
      now injection Hstep as <-.
Qed.

(** X30. A multi-select without choices still resolves, but not always with
    the empty list: the cursor can stand on [-1] and on [0], the toggle key
    selects either, and confirm turns each selected index into an empty
    label. The result is at most two labels, every one the empty string. *)
Theorem handleCheckbox_empty_choices (choices : option (list string))
    (evs : list KeyPress) (labels : list string) :
  choices_or_empty choices = [] ->
  handleCheckbox choices evs = Resolved labels ->
  Forall (fun label => label = EmptyString) labels
  /\ (List.length labels <= 2)%nat.
Proof.
  intros Hnil Hrun. unfold handleCheckbox in Hrun. rewrite Hnil in Hrun.
  destruct (run_checkbox_resolved_inv [] (mkCheckbox 0 JSSet.empty) evs labels
              (handleCheckbox_inv (Some []) [] _ eq_refl) Hrun)
    as (st & (_ & Hs & Hnd) & ->).
  split.
  - apply List.Forall_map. apply List.Forall_forall. intros x _.
    unfold js_index_or_empty. now rewrite js_index_nil.
  - rewrite length_map. unfold js_sort.
    rewrite (Permutation_length (sort_by_perm js_sort_le (cb_selectedItems st))).
    change 2%nat with (List.length [-1; 0]).
    apply List.NoDup_incl_length; [now apply NoDup_ListNoDup|].
    intros x Hx. rewrite List.Forall_forall in Hs. specialize (Hs x Hx).
    unfold js_length in Hs. cbn in Hs. cbn. lia.
Qed.

Lemma handleCheckbox_empty_choices_witness :
  (choices_or_empty None = []
   /\ handleCheckbox None [KeyUp; KeySpace; KeyDown; KeySpace; KeyReturn]
      = Resolved [EmptyString; EmptyString])
  /\ Forall (fun label => label = EmptyString) [EmptyString; EmptyString].
Proof.
  assert (Hrun : handleCheckbox None
                   [KeyUp; KeySpace; KeyDown; KeySpace; KeyReturn]
                 = Resolved [EmptyString; EmptyString]) by reflexivity.
  split; [split; [reflexivity | exact Hrun]|].
  exact (proj1 (handleCheckbox_empty_choices None _ _ eq_refl Hrun)).
Defined.
